(** * aviation-RAG: the document search tool ([custom_tool.py])

    A shallow embedding of [DocumentSearchTool] and [split_pdf].  The Python
    code talks to three collaborators: the local file system, the PyMuPDF
    library and the GroundX service.  They are modelled as follows.

    - The file system is a finite map from path strings to files.  A file
      has a byte size and a content: a PDF with its sequence of pages, a
      document of another format that PyMuPDF opens but that is no PDF, or
      something PyMuPDF cannot open.  Paths are compared as written (no
      normalisation of [./] or links).
    - A PyMuPDF document is the list of its pages, read when the file is
      opened, together with the fact whether it is a PDF.
    - The GroundX service is an oracle: every response is a function of the
      request and of the whole history of effects performed so far, so that
      the service may answer differently over time and may fail.  Every
      result of a search answer carries a text; a result without text (the
      SDK allows it, and [str.join] on line 80 then raises TypeError) is not
      represented.
    - Every external effect is appended to a chronological trace together
      with the answer it received.

    Python exceptions are modelled by an outcome type; nothing in the source
    catches an exception, so [Raise] propagates through every bind. *)

From Stdlib Require Import ZArith Lia Ascii.
From stdpp Require Import base strings list gmap pretty.

Local Open Scope string_scope.
Local Open Scope list_scope.
Local Open Scope Z_scope.

(** ** Values *)

(** A page is identified by its content. *)
Definition Page : Type := string.

(** What a file holds, as PyMuPDF sees it. *)
Inductive Content : Type :=
| Pdf (pages : list Page)                        (* a PDF that PyMuPDF reads *)
| OtherFormat (page : Page) (more : list Page)   (* text, image, ...: opens, is no PDF *)
| Unopenable.                                    (* empty or damaged: open fails *)

Record File : Type := MkFile {
  file_size : Z;                       (* what os.path.getsize reports *)
  file_content : Content
}.

(** The pages of a file that is a PDF. *)
Definition file_pages (f : File) : option (list Page) :=
  match file_content f with
  | Pdf pages => Some pages
  | _ => None
  end.

(** A PDF file with the given pages, or a file that cannot be opened. *)
Definition mkFile (size : Z) (pages : option (list Page)) : File :=
  MkFile size match pages with
              | Some pages => Pdf pages
              | None => Unopenable
              end.

(** pymupdf.Document: its pages, and whether it is a PDF. *)
Record MuDocument : Type := mkMuDocument {
  is_pdf : bool;
  mu_pages : list Page
}.

Inductive Exn : Type :=
| FileNotFoundError (path : string)
| FileDataError (path : string)
| ValueError (msg : string)
| RuntimeError (msg : string)
| AttributeError (name : string)
| ApiError (code : Z).

Inductive Outcome (A : Type) : Type :=
| Return (a : A)
| Raise (e : Exn).
Arguments Return {A} a.
Arguments Raise {A} e.

(** groundx.Document as built by [_upload_document]. *)
Record Document : Type := mkDocument {
  doc_bucket_id : Z;
  doc_file_name : string;
  doc_file_path : string;
  doc_file_type : string;
  doc_search_data : list (string * string)
}.

(** ** Effects *)

Inductive Event : Type :=
| EvBucketsCreate (name : string) (r : Outcome Z)
| EvIngest (d : Document) (r : Outcome string)
| EvStatus (process_id : string) (r : Outcome string)
| EvSearch (id : Z) (query : string) (n verbosity : Z) (r : Outcome (list string))
| EvGetSize (path : string) (r : Outcome Z)
| EvOpen (path : string) (r : Outcome (list Page))
| EvSave (path : string) (pages : list Page)
| EvPrint (msg : string).

(** The remote service.  [ingest] also sees the uploaded file, if any.  A
    status answer is modelled by its [ingest.status] string and a search
    answer by the [text] of its results, in order. *)
Record GroundX : Type := mkGroundX {
  buckets_create : list Event → string → Outcome Z;
  ingest : list Event → Document → option File → Outcome string;
  get_processing_status_by_id : list Event → string → Outcome string;
  search_content : list Event → Z → string → Z → Z → Outcome (list string)
}.

(** The client handle stored in [self.client]: it carries the API key read
    from the process environment. *)
Record Client : Type := mkClient { api_key : option string }.

(** The instance: the attributes [__init__] sets on [self], in the order it
    sets them.  Reading an attribute that was never set raises
    AttributeError. *)
Record DocumentSearchTool : Type := mkSelf {
  file_path : option string;
  client : option Client;
  bucket_id : option Z;
  pdf_parts : option (list string);
  process_ids : option (list string)
}.

Record World : Type := mkWorld {
  self : DocumentSearchTool;
  environ : gmap string string;
  fs : gmap string File;
  trace : list Event
}.

Definition empty_self : DocumentSearchTool := mkSelf None None None None None.

(** ** The state-and-exception monad *)

Definition M (A : Type) : Type := World → Outcome A * World.

Definition ret {A} (a : A) : M A := λ w, (Return a, w).
Definition raise {A} (e : Exn) : M A := λ w, (Raise e, w).
Definition bind {A B} (m : M A) (k : A → M B) : M B :=
  λ w, match m w with
       | (Return a, w') => k a w'
       | (Raise e, w') => (Raise e, w')
       end.

Declare Scope py_scope.
Delimit Scope py_scope with py.
Notation "x <- m ;; k" := (bind m (λ x, k))
  (at level 100, m at next level, right associativity) : py_scope.
Notation "m ;;; k" := (bind m (λ _, k))
  (at level 100, right associativity) : py_scope.
Local Open Scope py_scope.

Definition log (e : Event) : M unit :=
  λ w, (Return tt, mkWorld (self w) (environ w) (fs w) (trace w ++ [e])).

Definition set_self (f : DocumentSearchTool → DocumentSearchTool) : M unit :=
  λ w, (Return tt, mkWorld (f (self w)) (environ w) (fs w) (trace w)).

Definition getattr {A} (name : string) (field : DocumentSearchTool → option A) : M A :=
  λ w, match field (self w) with
       | Some a => (Return a, w)
       | None => (Raise (AttributeError name), w)
       end.

Definition lift {A} (o : Outcome A) : M A := λ w, (o, w).

(** An effect answered by the environment: the answer may depend on the
    world in which the request is made; request and answer are logged, and a
    failing answer is raised. *)
Definition perform {A} (ask : World → Outcome A) (ev : Outcome A → Event) : M A :=
  λ w, let r := ask w in bind (log (ev r)) (λ _, lift r) w.

Definition set_file_path (v : string) (o : DocumentSearchTool) : DocumentSearchTool :=
  mkSelf (Some v) (client o) (bucket_id o) (pdf_parts o) (process_ids o).
Definition set_client (v : Client) (o : DocumentSearchTool) : DocumentSearchTool :=
  mkSelf (file_path o) (Some v) (bucket_id o) (pdf_parts o) (process_ids o).
Definition set_bucket_id (v : Z) (o : DocumentSearchTool) : DocumentSearchTool :=
  mkSelf (file_path o) (client o) (Some v) (pdf_parts o) (process_ids o).
Definition set_pdf_parts (v : list string) (o : DocumentSearchTool) : DocumentSearchTool :=
  mkSelf (file_path o) (client o) (bucket_id o) (Some v) (process_ids o).
Definition set_process_ids (v : list string) (o : DocumentSearchTool) : DocumentSearchTool :=
  mkSelf (file_path o) (client o) (bucket_id o) (pdf_parts o) (Some v).

(** A for loop without early exit over a list, threading an accumulator. *)
Fixpoint for_each {A B} (body : B → A → M B) (l : list A) (acc : B) : M B :=
  match l with
  | [] => ret acc
  | x :: rest => acc' <- body acc x ;; for_each body rest acc'
  end.

(** ** Python built-ins used by the source *)

(** Number of elements of [range(start, stop, step)], step nonzero. *)
Definition range_length (start stop step : Z) : Z :=
  if 0 <? step then
    if start <? stop then (stop - start - 1) / step + 1 else 0
  else
    if stop <? start then (start - stop - 1) / (- step) + 1 else 0.

Definition range_list (start stop step : Z) : list Z :=
  map (λ k, start + Z.of_nat k * step) (seq 0 (Z.to_nat (range_length start stop step))).

(** [range] raises ValueError on a zero step. *)
Definition py_range (start stop step : Z) : Outcome (list Z) :=
  if step =? 0 then Raise (ValueError "range() arg 3 must not be zero")
  else Return (range_list start stop step).

(** [sep.join(l)] *)
Fixpoint join (sep : string) (l : list string) : string :=
  match l with
  | [] => ""
  | [x] => x
  | x :: rest => x +:+ sep +:+ join sep rest
  end.

(** [os.path.basename]: what follows the last slash. *)
Fixpoint has_slash (p : string) : bool :=
  match p with
  | EmptyString => false
  | String c r => if Ascii.eqb c "/"%char then true else has_slash r
  end.

Fixpoint basename (p : string) : string :=
  match p with
  | EmptyString => ""
  | String c r =>
      if has_slash r then basename r
      else if Ascii.eqb c "/"%char then r else p
  end.

Definition getenv (name : string) : M (option string) :=
  λ w, (Return (environ w !! name), w).

(** [os.path.getsize] *)
Definition getsize (path : string) : M Z :=
  perform (λ w, match fs w !! path with
                | Some f => Return (file_size f)
                | None => Raise (FileNotFoundError path)
                end)
          (EvGetSize path).

Definition print (msg : string) : M unit := log (EvPrint msg).

(** ** PyMuPDF *)

(** What [pymupdf.open] makes of a file. *)
Definition open_file (path : string) (file : option File) : Outcome MuDocument :=
  match file with
  | Some f => match file_content f with
              | Pdf pages => Return (mkMuDocument true pages)
              | OtherFormat page more => Return (mkMuDocument false (page :: more))
              | Unopenable => Raise (FileDataError path)
              end
  | None => Raise (FileNotFoundError path)
  end.

Definition pages_of (r : Outcome MuDocument) : Outcome (list Page) :=
  match r with
  | Return doc => Return (mu_pages doc)
  | Raise e => Raise e
  end.

(** [pymupdf.open(path)]; the trace records the pages that were read. *)
Definition pymupdf_open (path : string) : M MuDocument :=
  perform (λ w, open_file path (fs w !! path)) (λ r, EvOpen path (pages_of r)).

(** [part_doc.insert_pdf(doc, from_page=j, to_page=j)]: append page [j] of
    [doc], which must be a PDF ([part_doc], made by [pymupdf.open()], is
    one).  The loop of [split_pdf] only passes indices of existing pages. *)
Definition insert_pdf (doc : MuDocument) (part_doc : list Page) (j : Z)
    : Outcome (list Page) :=
  if is_pdf doc then
    Return match mu_pages doc !! Z.to_nat j with
           | Some p => part_doc ++ [p]
           | None => part_doc
           end
  else Raise (RuntimeError "source or target not a PDF").

Section tool.
(** The service, and the byte size of a document written by PyMuPDF. *)
Variable gx : GroundX.
Variable pdf_size : list Page → Z.

(** [part_doc.save(path)]: PyMuPDF refuses to write a document without
    pages; otherwise the file is created or replaced. *)
Definition save (part_doc : list Page) (path : string) : M unit :=
  match part_doc with
  | [] => raise (ValueError "cannot save with zero pages")
  | _ => λ w, (Return tt,
               mkWorld (self w) (environ w)
                       (<[path := mkFile (pdf_size part_doc) (Some part_doc)]> (fs w))
                       (trace w ++ [EvSave path part_doc]))
  end.

(** ** split_pdf *)

Definition part_name (i : Z) : string := "split_" +:+ pretty i +:+ ".pdf".

(** Body of the outer loop, lines 91-97. *)
Definition split_body (doc : MuDocument) (max_pages : Z)
    (parts : list string) (i : Z) : M (list string) :=
  let part_path := part_name i in
  part_doc <- for_each (λ part_doc j, lift (insert_pdf doc part_doc j))
                       (range_list i (Z.min (i + max_pages)
                                            (Z.of_nat (length (mu_pages doc)))) 1)
                       [] ;;
  save part_doc part_path ;;;
  ret (parts ++ [part_path]).

Definition split_pdf (input_path : string) (max_pages : Z) : M (list string) :=
  doc <- pymupdf_open input_path ;;
  starts <- lift (py_range 0 (Z.of_nat (length (mu_pages doc))) max_pages) ;;
  for_each (split_body doc max_pages) starts [].

(** ** DocumentSearchTool *)

Definition _create_bucket : M Z :=
  _ <- getattr "client" client ;;
  perform (λ w, buckets_create gx (trace w) "agentic_rag")
          (EvBucketsCreate "agentic_rag").

Definition _upload_document (path : string) : M string :=
  _ <- getattr "client" client ;;
  b <- getattr "bucket_id" bucket_id ;;
  let d := mkDocument b (basename path) path "pdf" [("key", "value")] in
  perform (λ w, ingest gx (trace w) d (fs w !! path)) (EvIngest d).

Definition size_limit : Z := 10485760.

(** [__init__].  [super().__init__()] starts from an object on which none
    of the attributes below is set. *)
Definition __init__ (path : string) : M unit :=
  set_self (λ _, empty_self) ;;;
  set_self (set_file_path path) ;;;
  key <- getenv "GROUNDX_API_KEY" ;;
  set_self (set_client (mkClient key)) ;;;
  b <- _create_bucket ;;
  set_self (set_bucket_id b) ;;;
  size <- getsize path ;;
  (if size_limit <? size then
     print "PDF is too large! Splitting into smaller parts..." ;;;
     parts <- split_pdf path 10 ;;
     set_self (set_pdf_parts parts)
   else
     set_self (set_pdf_parts [path])) ;;;
  parts <- getattr "pdf_parts" pdf_parts ;;
  pids <- for_each (λ acc part, pid <- _upload_document part ;; ret (acc ++ [pid]))
                   parts [] ;;
  set_self (set_process_ids pids).

Definition still_processing : string := "Document is still being processed...".
Definition no_results : string := "No relevant information found.".
Definition newline : string := String "010"%char EmptyString.
Definition delimiter : string := newline +:+ "____" +:+ newline.

(** The for loop of [_run], lines 65-78: [inl] is the early return, [inr]
    the list [results] with which the loop falls through. *)
Fixpoint _run_for (query : string) (pids : list string) (results : list string)
    : M (string + list string) :=
  match pids with
  | [] => ret (inr results)
  | process_id :: rest =>
      _ <- getattr "client" client ;;
      status <- perform (λ w, get_processing_status_by_id gx (trace w) process_id)
                        (EvStatus process_id) ;;
      if bool_decide (status ≠ "complete") then ret (inl still_processing)
      else
        _ <- getattr "client" client ;;
        b <- getattr "bucket_id" bucket_id ;;
        found <- perform (λ w, search_content gx (trace w) b query 10 2)
                         (EvSearch b query 10 2) ;;
        _run_for query rest (fold_left (λ acc text, acc ++ [text]) found results)
  end.

Definition _run (query : string) : M string :=
  pids <- getattr "process_ids" process_ids ;;
  exit <- _run_for query pids [] ;;
  match exit with
  | inl message => ret message
  | inr results =>
      ret (match results with
           | [] => no_results
           | _ => join delimiter results
           end)
  end.

(** Lines 31-37 and lines 39-40 of [__init__] on their own, so that the
    lemmas below can speak about the two phases of the constructor. *)
Definition check_file_size (path : string) : M unit :=
  size <- getsize path ;;
  if size_limit <? size then
    print "PDF is too large! Splitting into smaller parts..." ;;;
    parts <- split_pdf path 10 ;;
    set_self (set_pdf_parts parts)
  else
    set_self (set_pdf_parts [path]).

Definition upload_body (acc : list string) (part : string) : M (list string) :=
  pid <- _upload_document part ;; ret (acc ++ [pid]).

Definition upload_parts : M unit :=
  parts <- getattr "pdf_parts" pdf_parts ;;
  pids <- for_each upload_body parts [] ;;
  set_self (set_process_ids pids).

End tool.

(** ** Vocabulary of the specification *)

(** The effects a computation adds to the trace of the world it starts in. *)
Definition effects_of {A} (m : M A) (w : World) : list Event :=
  drop (length (trace w)) (trace (snd (m w))).

Definition with_trace (w : World) (delta : list Event) : World :=
  mkWorld (self w) (environ w) (fs w) (trace w ++ delta).

Definition with_self (w : World) (o : DocumentSearchTool) : World :=
  mkWorld o (environ w) (fs w) (trace w).

(** A computation that changes nothing but the trace. *)
Definition only_logs {A} (m : M A) : Prop :=
  ∀ w, ∃ delta, snd (m w) = with_trace w delta.

(** *** Splitting *)

Definition ceil_div (p w : Z) : Z := (p + w - 1) / w.

(** The pages of the window that starts at page index [i]. *)
Definition window (doc : list Page) (max_pages i : Z) : list Page :=
  take (Z.to_nat max_pages) (drop (Z.to_nat i) doc).

Section parts.
Variable pdf_size : list Page → Z.
Variable doc : list Page.
Variable max_pages : Z.

Definition part_file (i : Z) : File :=
  mkFile (pdf_size (window doc max_pages i)) (Some (window doc max_pages i)).

(** The file system after the parts starting at [starts] were saved. *)
Definition written (starts : list Z) (m : gmap string File) : gmap string File :=
  foldl (λ m i, <[part_name i := part_file i]> m) m starts.

Definition saves (starts : list Z) : list Event :=
  map (λ i, EvSave (part_name i) (window doc max_pages i)) starts.

End parts.

(** What the specification says of a document with at most [max_pages]
    pages: one part, holding every page. *)
Definition one_part_with_all_pages (pdf_size : list Page → Z) (path : string)
    (doc : list Page) (max_pages : Z) (w : World) : Prop :=
  ∃ part g w',
    split_pdf pdf_size path max_pages w = (Return [part], w') ∧
    fs w' !! part = Some g ∧ file_pages g = Some doc.

(** *** Construction *)

Definition document (b : Z) (path : string) : Document :=
  mkDocument b (basename path) path "pdf" [("key", "value")].

Definition uploads (b : Z) (parts pids : list string) : list Event :=
  zip_with (λ part pid, EvIngest (document b part) (Return pid)) parts pids.

Definition is_ingest (e : Event) : Prop :=
  match e with EvIngest _ _ => True | _ => False end.

(** The uploads recorded in a trace, in order. *)
Definition ingested (delta : list Event) : list (Document * Outcome string) :=
  omap (λ e, match e with EvIngest d r => Some (d, r) | _ => None end) delta.

(** [split_pdf] was entered: the source document was opened. *)
Definition opened (path : string) (delta : list Event) : Prop :=
  ∃ r, EvOpen path r ∈ delta.

(** The world in which the size check starts once the bucket exists. *)
Definition created (path : string) (b : Z) (w : World) : World :=
  mkWorld (mkSelf (Some path) (Some (mkClient (environ w !! "GROUNDX_API_KEY")))
                  (Some b) None None)
          (environ w) (fs w) (trace w ++ [EvBucketsCreate "agentic_rag" (Return b)]).

Definition split_effects (path : string) (f : File) (doc : list Page) : list Event :=
  [EvGetSize path (Return (file_size f));
   EvPrint "PDF is too large! Splitting into smaller parts...";
   EvOpen path (Return doc)]
  ++ saves doc 10 (range_list 0 (Z.of_nat (length doc)) 10).

(** *** Queries *)

(** The tool as construction leaves it: a client, the bucket and the jobs. *)
Definition ready (w : World) (pids : list string) (b : Z) : Prop :=
  is_Some (client (self w)) ∧ bucket_id (self w) = Some b ∧
  process_ids (self w) = Some pids.

(** From history [h0] on, the service reports status [st pid] for job [pid]. *)
Definition reports (gx : GroundX) (h0 : list Event) (st : string → string) : Prop :=
  ∀ h pid, get_processing_status_by_id gx (h0 ++ h) pid = Return (st pid).

(** From history [h0] on, search requests do not fail. *)
Definition search_answers (gx : GroundX) (h0 : list Event) : Prop :=
  ∀ h id q n v, ∃ found, search_content gx (h0 ++ h) id q n v = Return found.

(** One iteration of the loop of [_run] on a complete job. *)
Definition round (b : Z) (q : string) (pid : string) (found : list string) : list Event :=
  [EvStatus pid (Return "complete"); EvSearch b q 10 2 (Return found)].

Definition rounds (b : Z) (q : string) (pids : list string) (founds : list (list string))
    : list Event :=
  concat (zip_with (round b q) pids founds).

(** The search requests recorded in a trace, in order. *)
Definition searches (delta : list Event) : list (Z * string * Z * Z) :=
  omap (λ e, match e with EvSearch id q n v _ => Some (id, q, n, v) | _ => None end) delta.

(** The status answers recorded in a trace, in order. *)
Definition checks (delta : list Event) : list (string * Outcome string) :=
  omap (λ e, match e with EvStatus pid r => Some (pid, r) | _ => None end) delta.

(** The specification's order of requests: every job is checked, and a
    search is only issued once all jobs were found complete. *)
Definition checks_all_before_search (pids : list string) (delta : list Event) : Prop :=
  (∀ pid, pid ∈ pids → ∃ r, EvStatus pid r ∈ delta) ∧
  (∀ pre id q n v r post, delta = pre ++ EvSearch id q n v r :: post →
     ∀ pid, pid ∈ pids → EvStatus pid (Return "complete") ∈ pre).

(** The traces the loop of [_run] can leave, job by job: it stops at the
    first status request that fails or is not complete and at the first
    search that fails; otherwise a job's search follows its status. *)
Inductive loop_trace (b : Z) (q : string) : list string → list Event → Prop :=
| loop_end :
    loop_trace b q [] []
| loop_status_raises pid rest e :
    loop_trace b q (pid :: rest) [EvStatus pid (Raise e)]
| loop_pending pid rest status :
    status ≠ "complete" →
    loop_trace b q (pid :: rest) [EvStatus pid (Return status)]
| loop_search_raises pid rest e :
    loop_trace b q (pid :: rest)
               [EvStatus pid (Return "complete"); EvSearch b q 10 2 (Raise e)]
| loop_round pid rest found tl :
    loop_trace b q rest tl →
    loop_trace b q (pid :: rest)
               (EvStatus pid (Return "complete")
                :: EvSearch b q 10 2 (Return found) :: tl).

(** ** Vocabulary of the further properties *)

(** A computation that leaves an observation of the world as it is. *)
Definition preserves {A X} (f : World → X) (m : M A) : Prop :=
  ∀ w, f (snd (m w)) = f w.

(** A computation that only extends the trace, by events satisfying [P]. *)
Definition only_performs (P : Event → Prop) {A} (m : M A) : Prop :=
  ∀ w, ∃ delta, snd (m w) = with_trace w delta ∧ Forall P delta.

Definition is_query_request (e : Event) : Prop :=
  match e with
  | EvStatus _ _ | EvSearch _ _ _ _ _ => True
  | _ => False
  end.

(** A status or search request together with an error answer. *)
Definition failed_with (e : Exn) (ev : Event) : Prop :=
  match ev with
  | EvStatus _ (Raise e') => e' = e
  | EvSearch _ _ _ _ (Raise e') => e' = e
  | _ => False
  end.

(** A request that was not answered with an error. *)
Definition succeeded (ev : Event) : Prop :=
  match ev with
  | EvStatus _ (Raise _) | EvSearch _ _ _ _ (Raise _) => False
  | _ => True
  end.

(** The value [_run] returns when its loop falls through (line 80). *)
Definition render (results : list string) : string :=
  match results with
  | [] => no_results
  | _ => join delimiter results
  end.

(** How the loop of [_run] can end when it starts with the list [results]:
    the jobs [done] were found complete and searched, with answers
    [founds]; then either no job is left, or the next job is not complete,
    or its status request fails, or its search fails. *)
Inductive loop_ending (b : Z) (q : string) (pids : list string) (results : list string)
    : list Event → Outcome (string + list string) → Prop :=
| loop_ends_complete founds :
    length founds = length pids →
    loop_ending b q pids results (rounds b q pids founds)
                (Return (inr (results ++ concat founds)))
| loop_ends_pending done founds pid rest status :
    pids = done ++ pid :: rest → length founds = length done →
    status ≠ "complete" →
    loop_ending b q pids results
                (rounds b q done founds ++ [EvStatus pid (Return status)])
                (Return (inl still_processing))
| loop_ends_status_failed done founds pid rest e :
    pids = done ++ pid :: rest → length founds = length done →
    loop_ending b q pids results
                (rounds b q done founds ++ [EvStatus pid (Raise e)])
                (Raise e)
| loop_ends_search_failed done founds pid rest e :
    pids = done ++ pid :: rest → length founds = length done →
    loop_ending b q pids results
                (rounds b q done founds
                 ++ [EvStatus pid (Return "complete"); EvSearch b q 10 2 (Raise e)])
                (Raise e).

(** The same for [_run] as a whole. *)
Inductive run_ending (b : Z) (q : string) (pids : list string)
    : list Event → Outcome string → Prop :=
| ends_complete founds :
    length founds = length pids →
    run_ending b q pids (rounds b q pids founds) (Return (render (concat founds)))
| ends_pending done founds pid rest status :
    pids = done ++ pid :: rest → length founds = length done →
    status ≠ "complete" →
    run_ending b q pids
               (rounds b q done founds ++ [EvStatus pid (Return status)])
               (Return still_processing)
| ends_status_failed done founds pid rest e :
    pids = done ++ pid :: rest → length founds = length done →
    run_ending b q pids
               (rounds b q done founds ++ [EvStatus pid (Raise e)])
               (Raise e)
| ends_search_failed done founds pid rest e :
    pids = done ++ pid :: rest → length founds = length done →
    run_ending b q pids
               (rounds b q done founds
                ++ [EvStatus pid (Return "complete"); EvSearch b q 10 2 (Raise e)])
               (Raise e).

(** What the size check of [__init__] leaves when it succeeds on file [f]:
    the list of parts, the effects after the size lookup, and the files. *)
Inductive prepared (pdf_size : list Page → Z) (path : string) (f : File)
    (files : gmap string File)
    : list string → list Event → gmap string File → Prop :=
| prepared_whole :
    file_size f ≤ size_limit →
    prepared pdf_size path f files [path] [] files
| prepared_split doc :
    size_limit < file_size f → file_pages f = Some doc →
    prepared pdf_size path f files
             (map part_name (range_list 0 (Z.of_nat (length doc)) 10))
             ([EvPrint "PDF is too large! Splitting into smaller parts...";
               EvOpen path (Return doc)]
              ++ saves doc 10 (range_list 0 (Z.of_nat (length doc)) 10))
             (written pdf_size doc 10 (range_list 0 (Z.of_nat (length doc)) 10) files).

(** The six ways [__init__] can end in world [w]: its effects, its
    outcome, the attributes of the instance and the files it leaves. *)
Inductive init_ending (gx : GroundX) (pdf_size : list Page → Z) (path : string) (w : World)
    : list Event → Outcome unit → DocumentSearchTool → gmap string File → Prop :=
| init_bucket_failed e :
    buckets_create gx (trace w) "agentic_rag" = Raise e →
    init_ending gx pdf_size path w
      [EvBucketsCreate "agentic_rag" (Raise e)]
      (Raise e)
      (mkSelf (Some path) (Some (mkClient (environ w !! "GROUNDX_API_KEY"))) None None None)
      (fs w)
| init_file_missing b :
    buckets_create gx (trace w) "agentic_rag" = Return b →
    fs w !! path = None →
    init_ending gx pdf_size path w
      [EvBucketsCreate "agentic_rag" (Return b);
       EvGetSize path (Raise (FileNotFoundError path))]
      (Raise (FileNotFoundError path))
      (mkSelf (Some path) (Some (mkClient (environ w !! "GROUNDX_API_KEY")))
              (Some b) None None)
      (fs w)
| init_file_unopenable b f :
    buckets_create gx (trace w) "agentic_rag" = Return b →
    fs w !! path = Some f → size_limit < file_size f →
    file_content f = Unopenable →
    init_ending gx pdf_size path w
      [EvBucketsCreate "agentic_rag" (Return b);
       EvGetSize path (Return (file_size f));
       EvPrint "PDF is too large! Splitting into smaller parts...";
       EvOpen path (Raise (FileDataError path))]
      (Raise (FileDataError path))
      (mkSelf (Some path) (Some (mkClient (environ w !! "GROUNDX_API_KEY")))
              (Some b) None None)
      (fs w)
| init_file_not_pdf b f page more :
    buckets_create gx (trace w) "agentic_rag" = Return b →
    fs w !! path = Some f → size_limit < file_size f →
    file_content f = OtherFormat page more →
    init_ending gx pdf_size path w
      [EvBucketsCreate "agentic_rag" (Return b);
       EvGetSize path (Return (file_size f));
       EvPrint "PDF is too large! Splitting into smaller parts...";
       EvOpen path (Return (page :: more))]
      (Raise (RuntimeError "source or target not a PDF"))
      (mkSelf (Some path) (Some (mkClient (environ w !! "GROUNDX_API_KEY")))
              (Some b) None None)
      (fs w)
| init_upload_failed b f parts prep files done part rest pids e :
    buckets_create gx (trace w) "agentic_rag" = Return b →
    fs w !! path = Some f →
    prepared pdf_size path f (fs w) parts prep files →
    parts = done ++ part :: rest → length pids = length done →
    init_ending gx pdf_size path w
      ([EvBucketsCreate "agentic_rag" (Return b);
        EvGetSize path (Return (file_size f))]
       ++ prep ++ uploads b done pids ++ [EvIngest (document b part) (Raise e)])
      (Raise e)
      (mkSelf (Some path) (Some (mkClient (environ w !! "GROUNDX_API_KEY")))
              (Some b) (Some parts) None)
      files
| init_constructed b f parts prep files pids :
    buckets_create gx (trace w) "agentic_rag" = Return b →
    fs w !! path = Some f →
    prepared pdf_size path f (fs w) parts prep files →
    length pids = length parts →
    init_ending gx pdf_size path w
      ([EvBucketsCreate "agentic_rag" (Return b);
        EvGetSize path (Return (file_size f))]
       ++ prep ++ uploads b parts pids)
      (Return tt)
      (mkSelf (Some path) (Some (mkClient (environ w !! "GROUNDX_API_KEY")))
              (Some b) (Some parts) (Some pids))
      files.

(** ** A small service and documents to run the model on *)

Definition demo_service (st : string → string) (hits : list string) : GroundX :=
  mkGroundX (λ _ _, Return 7)
            (λ _ d _, Return ("job-" +:+ doc_file_name d))
            (λ _ pid, Return (st pid))
            (λ _ _ _ _ _, Return hits).

Definition demo_size (pages : list Page) : Z := 1000 * Z.of_nat (length pages).

Definition demo_pages (n : nat) : list Page :=
  map (λ k, "page " +:+ pretty k) (seq 0 n).

Definition demo_world (path : string) (f : File) : World :=
  mkWorld empty_self ∅ {[path := f]} [].

Definition demo_tool (parts pids : list string) : World :=
  mkWorld (mkSelf (Some "doc.pdf") (Some (mkClient None)) (Some 7) (Some parts) (Some pids))
          ∅ ∅ [].

Definition all_complete (pid : string) : string := "complete".

Definition second_pending (pid : string) : string :=
  if bool_decide (pid = "job-b") then "processing" else "complete".

(** A service whose uploads fail from the [n]-th on, and one that refuses
    to create a bucket. *)
Definition failing_after (n : nat) : GroundX :=
  mkGroundX (λ _ _, Return 7)
            (λ h d _, if decide (length (ingested h) < n)%nat
                      then Return ("job-" +:+ doc_file_name d)
                      else Raise (ApiError 429))
            (λ _ _, Return "complete")
            (λ _ _ _ _ _, Return []).

Definition no_bucket : GroundX :=
  mkGroundX (λ _ _, Raise (ApiError 401)) (λ _ _ _, Return "job")
            (λ _ _, Return "complete") (λ _ _ _ _ _, Return []).

(** ** Running the model *)

Example range_examples :
  range_list 0 25 10 = [0; 10; 20] ∧ range_list 0 20 10 = [0; 10] ∧
  range_list 0 0 10 = [] ∧ range_list 0 5 (-2) = [] ∧
  py_range 0 5 0 = Raise (ValueError "range() arg 3 must not be zero").
Proof. repeat split; reflexivity. Qed.

Example basename_examples :
  basename "a/b/c.pdf" = "c.pdf" ∧ basename "split_10.pdf" = "split_10.pdf" ∧
  basename "a/" = "".
Proof. repeat split; reflexivity. Qed.

Example split_pdf_example :
  fst (split_pdf demo_size "big.pdf" 10
         (demo_world "big.pdf" (mkFile 20000000 (Some (demo_pages 25)))))
  = Return ["split_0.pdf"; "split_10.pdf"; "split_20.pdf"].
Proof. vm_compute. reflexivity. Qed.

Example init_example :
  self (snd (__init__ (demo_service all_complete []) demo_size "big.pdf"
               (demo_world "big.pdf" (mkFile 10485761 (Some (demo_pages 12))))))
  = mkSelf (Some "big.pdf") (Some (mkClient None)) (Some 7)
           (Some ["split_0.pdf"; "split_10.pdf"])
           (Some ["job-split_0.pdf"; "job-split_10.pdf"]).
Proof. vm_compute. reflexivity. Qed.

Example init_not_a_pdf_example :
  fst (__init__ (demo_service all_complete []) demo_size "notes.txt"
         (demo_world "notes.txt" (MkFile 10485761 (OtherFormat "remember the manual" []))))
  = Raise (RuntimeError "source or target not a PDF").
Proof. vm_compute. reflexivity. Qed.

Example run_pending_example :
  effects_of (_run (demo_service second_pending ["A"; "B"]) "wing load")
             (demo_tool ["a.pdf"; "b.pdf"; "c.pdf"] ["job-a"; "job-b"; "job-c"])
  = [EvStatus "job-a" (Return "complete");
     EvSearch 7 "wing load" 10 2 (Return ["A"; "B"]);
     EvStatus "job-b" (Return "processing")].
Proof. vm_compute. reflexivity. Qed.

(** * Proofs *)

(** ** The monad *)

Lemma bind_Return {A B} (m : M A) (k : A → M B) w a w' :
  m w = (Return a, w') → bind m k w = k a w'.
Proof. intros H. unfold bind. by rewrite H. Qed.

Lemma bind_Raise {A B} (m : M A) (k : A → M B) w e w' :
  m w = (Raise e, w') → bind m k w = (Raise e, w').
Proof. intros H. unfold bind. by rewrite H. Qed.

Lemma bind_assoc {A B C} (m : M A) (k : A → M B) (k' : B → M C) w :
  bind (bind m k) k' w = bind m (λ a, bind (k a) k') w.
Proof. unfold bind. by destruct (m w) as [[a|e] w']. Qed.

Lemma perform_run {A} (ask : World → Outcome A) ev w :
  perform ask ev w = (ask w, with_trace w [ev (ask w)]).
Proof. unfold perform, bind, log, lift. by destruct (ask w). Qed.

Lemma getattr_run {A} name (field : DocumentSearchTool → option A) w a :
  field (self w) = Some a → getattr name field w = (Return a, w).
Proof. intros H. unfold getattr. by rewrite H. Qed.

Lemma with_trace_nil w : with_trace w [] = w.
Proof. destruct w. unfold with_trace. simpl. by rewrite app_nil_r. Qed.

Lemma with_trace_app w d1 d2 : with_trace (with_trace w d1) d2 = with_trace w (d1 ++ d2).
Proof. unfold with_trace. simpl. by rewrite app_assoc. Qed.

Lemma effects_of_trace {A} (m : M A) w delta :
  trace (snd (m w)) = trace w ++ delta → effects_of m w = delta.
Proof. intros H. unfold effects_of. rewrite H. apply drop_app_length. Qed.

(** Reading attributes and asking the environment only extend the trace. *)

Lemma only_logs_ret {A} (a : A) : only_logs (ret a).
Proof. intros w. exists []. by rewrite with_trace_nil. Qed.

Lemma only_logs_getattr {A} name (field : DocumentSearchTool → option A) :
  only_logs (getattr name field).
Proof.
  intros w. exists []. rewrite with_trace_nil. unfold getattr.
  by destruct (field (self w)).
Qed.

Lemma only_logs_perform {A} (ask : World → Outcome A) ev : only_logs (perform ask ev).
Proof. intros w. eexists. by rewrite perform_run. Qed.

Lemma only_logs_bind {A B} (m : M A) (k : A → M B) :
  only_logs m → (∀ a, only_logs (k a)) → only_logs (bind m k).
Proof.
  intros Hm Hk w. destruct (Hm w) as [d1 H1]. unfold bind.
  destruct (m w) as [[a|e] w1]; simpl in H1; subst w1.
  - destruct (Hk a (with_trace w d1)) as [d2 H2].
    exists (d1 ++ d2). by rewrite H2, with_trace_app.
  - by exists d1.
Qed.

(** ** Arithmetic of [range] and of the windows *)

Lemma ceil_div_spec p w : 0 < w → w * (ceil_div p w - 1) < p ≤ w * ceil_div p w.
Proof.
  intros Hw. unfold ceil_div.
  pose proof (Z.div_mod (p + w - 1) w ltac:(lia)) as Hdm.
  pose proof (Z.mod_pos_bound (p + w - 1) w Hw). lia.
Qed.

Lemma range_length_pos stop step :
  0 < step → 0 ≤ stop → range_length 0 stop step = ceil_div stop step.
Proof.
  intros Hs Hp. unfold range_length, ceil_div.
  destruct (Z.ltb_spec 0 step); [|lia].
  destruct (Z.ltb_spec 0 stop).
  - replace (stop + step - 1) with (stop - 0 - 1 + 1 * step) by lia.
    rewrite Z.div_add by lia. lia.
  - assert (stop = 0) as -> by lia. symmetry. apply Z.div_small. lia.
Qed.

Lemma range_length_neg stop step : step < 0 → 0 ≤ stop → range_length 0 stop step = 0.
Proof.
  intros Hs Hp. unfold range_length.
  destruct (Z.ltb_spec 0 step); [lia|].
  destruct (Z.ltb_spec stop 0); [lia|done].
Qed.

Lemma range_length_unit a b : a ≤ b → range_length a b 1 = b - a.
Proof.
  intros Hab. unfold range_length. simpl.
  destruct (Z.ltb_spec a b).
  - rewrite Z.div_1_r. lia.
  - lia.
Qed.

Lemma range_list_lookup P W (k : nat) :
  0 < W → 0 ≤ P →
  range_list 0 P W !! k
  = if bool_decide (Z.of_nat k < ceil_div P W) then Some (Z.of_nat k * W) else None.
Proof.
  intros HW HP. unfold range_list. rewrite range_length_pos by done.
  pose proof (ceil_div_spec P W HW) as Hc.
  rewrite list_lookup_fmap. case_bool_decide as Hk.
  - rewrite lookup_seq_lt by lia. simpl. f_equal.
  - by rewrite lookup_seq_ge by lia.
Qed.

Lemma range_list_length P W :
  0 < W → 0 ≤ P → Z.of_nat (length (range_list 0 P W)) = ceil_div P W.
Proof.
  intros HW HP. unfold range_list. rewrite length_map, length_seq.
  rewrite range_length_pos by done.
  pose proof (ceil_div_spec P W HW). nia.
Qed.

Lemma range_list_bounds P W :
  0 < W → 0 ≤ P → Forall (λ i, 0 ≤ i < P) (range_list 0 P W).
Proof.
  intros HW HP. apply Forall_lookup_2. intros k i Hk.
  rewrite range_list_lookup in Hk by done.
  case_bool_decide as Hlt; [|done]. injection Hk as <-.
  pose proof (ceil_div_spec P W HW). nia.
Qed.

Lemma range_list_NoDup P W : 0 < W → 0 ≤ P → NoDup (range_list 0 P W).
Proof.
  intros HW HP. apply NoDup_alt. intros j k i Hj Hk.
  rewrite range_list_lookup in Hj, Hk by done.
  repeat case_bool_decide; try done.
  injection Hj as <-. injection Hk as Hk. nia.
Qed.

Lemma window_length doc max_pages i :
  0 < max_pages → 0 ≤ i →
  Z.of_nat (length (window doc max_pages i))
  = Z.min max_pages (Z.max 0 (Z.of_nat (length doc) - i)).
Proof.
  intros Hw Hi. unfold window. rewrite length_take, length_drop. lia.
Qed.

(** ** Part names *)

Lemma string_app_length s t :
  String.length (s +:+ t) = (String.length s + String.length t)%nat.
Proof. induction s as [|c s IH]; simpl; [done|]. by rewrite IH. Qed.

Lemma string_app_inj_r t s1 s2 : s1 +:+ t = s2 +:+ t → s1 = s2.
Proof.
  revert s2. induction s1 as [|c s1 IH]; intros [|d s2] Heq.
  - done.
  - apply (f_equal String.length) in Heq.
    rewrite !string_app_length in Heq. cbn [String.length] in Heq. lia.
  - apply (f_equal String.length) in Heq.
    rewrite !string_app_length in Heq. cbn [String.length] in Heq. lia.
  - cbn [String.append] in Heq. injection Heq as -> Heq. f_equal. by apply IH.
Qed.

Lemma part_name_inj i j : part_name i = part_name j → i = j.
Proof.
  unfold part_name. intros Heq.
  apply (inj (String.app "split_")) in Heq.
  apply string_app_inj_r in Heq.
  by apply (inj pretty) in Heq.
Qed.

Lemma has_slash_app s t : has_slash (s +:+ t) = has_slash s || has_slash t.
Proof.
  induction s as [|c s IH]; [done|]. simpl.
  destruct (Ascii.eqb c "/"); [done|apply IH].
Qed.

Lemma has_slash_pretty_N_go (x : N) : ∀ s, has_slash (pretty_N_go x s) = has_slash s.
Proof.
  induction (N.lt_wf_0 x) as [x _ IH]. intros s.
  destruct (decide (0 < x)%N) as [Hx|Hx].
  - rewrite pretty_N_go_step by done.
    rewrite IH by (by apply N.div_lt). cbn [has_slash].
    unfold pretty_N_char. by repeat case_match.
  - assert (x = 0%N) as -> by lia. done.
Qed.

Lemma has_slash_pretty_N (x : N) : has_slash (pretty x) = false.
Proof.
  unfold pretty, pretty_N. case_decide; [done|]. by rewrite has_slash_pretty_N_go.
Qed.

Lemma part_name_no_slash i : has_slash (part_name i) = false.
Proof.
  unfold part_name. rewrite !has_slash_app.
  assert (has_slash (pretty i) = false) as ->; [|done].
  destruct i as [|p|p]; [done| |].
  - apply (has_slash_pretty_N (Npos p)).
  - change (pretty (Z.neg p)) with ("-" +:+ pretty (Npos p)).
    rewrite has_slash_app. by rewrite (has_slash_pretty_N (Npos p)).
Qed.

(** ** The loops of [split_pdf] *)

Lemma file_pages_content f doc : file_pages f = Some doc → file_content f = Pdf doc.
Proof. unfold file_pages. destruct (file_content f); congruence. Qed.

Lemma open_file_pdf path file f doc :
  file = Some f → file_pages f = Some doc →
  open_file path file = Return (mkMuDocument true doc).
Proof.
  intros -> Hdoc. unfold open_file. by rewrite (file_pages_content f doc Hdoc).
Qed.

Lemma pymupdf_open_run path w :
  pymupdf_open path w
  = (open_file path (fs w !! path),
     with_trace w [EvOpen path (pages_of (open_file path (fs w !! path)))]).
Proof. unfold pymupdf_open. by rewrite perform_run. Qed.

Lemma insert_pdf_lookup doc part j x :
  doc !! j = Some x →
  insert_pdf (mkMuDocument true doc) part (Z.of_nat j) = Return (part ++ [x]).
Proof. intros Hx. unfold insert_pdf. cbn. by rewrite Nat2Z.id, Hx. Qed.

Lemma fold_insert_pdf doc n a acc w :
  (a + n ≤ length doc)%nat →
  for_each (λ part_doc j, lift (insert_pdf (mkMuDocument true doc) part_doc j))
           (map (λ k, Z.of_nat a + Z.of_nat k * 1) (seq 0 n)) acc w
  = (Return (acc ++ take n (drop a doc)), w).
Proof.
  revert a acc. induction n as [|n IH]; intros a acc Hlen.
  - simpl. by rewrite app_nil_r.
  - destruct (lookup_lt_is_Some_2 doc a ltac:(lia)) as [x Hx].
    rewrite (drop_S _ _ _ Hx).
    change (seq 0 (S n)) with (0%nat :: seq 1 n).
    rewrite <- seq_shift, map_cons, map_map. cbn [for_each take].
    replace (Z.of_nat a + Z.of_nat 0 * 1) with (Z.of_nat a) by lia.
    erewrite bind_Return by (unfold lift; by rewrite (insert_pdf_lookup _ _ _ _ Hx)).
    rewrite (map_ext _ (λ k, Z.of_nat (S a) + Z.of_nat k * 1)) by (intros; lia).
    rewrite IH by lia. by rewrite <- app_assoc.
Qed.

Lemma inner_loop_window doc max_pages i w :
  0 < max_pages → 0 ≤ i ≤ Z.of_nat (length doc) →
  for_each (λ part_doc j, lift (insert_pdf (mkMuDocument true doc) part_doc j))
           (range_list i (Z.min (i + max_pages) (Z.of_nat (length doc))) 1) [] w
  = (Return (window doc max_pages i), w).
Proof.
  intros Hw Hi. unfold range_list, window.
  rewrite range_length_unit by lia.
  rewrite (map_ext _ (λ k, Z.of_nat (Z.to_nat i) + Z.of_nat k * 1)) by (intros; lia).
  rewrite fold_insert_pdf by lia. simpl.
  destruct (Z.le_ge_cases (i + max_pages) (Z.of_nat (length doc))).
  - do 3 f_equal. lia.
  - rewrite !take_ge; [done| |]; rewrite length_drop; lia.
Qed.

Section split.
Variable pdf_size : list Page → Z.
Variable doc : list Page.
Variable max_pages : Z.

Lemma split_loop starts parts w :
  0 < max_pages →
  Forall (λ i, 0 ≤ i < Z.of_nat (length doc)) starts →
  for_each (split_body pdf_size (mkMuDocument true doc) max_pages) starts parts w
  = (Return (parts ++ map part_name starts),
     mkWorld (self w) (environ w)
             (written pdf_size doc max_pages starts (fs w))
             (trace w ++ saves doc max_pages starts)).
Proof.
  intros Hw Hall. revert parts w.
  induction Hall as [|i starts Hi Hall IH]; intros parts w.
  - simpl. unfold ret. rewrite !app_nil_r. by destruct w.
  - cbn [for_each]. unfold bind at 1. unfold split_body at 1.
    erewrite bind_Return by (refine (inner_loop_window doc max_pages i w _ _); lia).
    pose proof (window_length doc max_pages i Hw ltac:(lia)) as Hlen.
    destruct (window doc max_pages i) as [|p ps] eqn:Hwin.
    { simpl in Hlen. lia. }
    unfold bind, save, ret. rewrite IH. cbn [self environ fs trace].
    unfold written, saves, part_file. cbn [foldl map]. rewrite Hwin.
    by rewrite <- !app_assoc.
Qed.

Lemma written_other starts m name :
  (∀ i, i ∈ starts → part_name i ≠ name) →
  written pdf_size doc max_pages starts m !! name = m !! name.
Proof.
  revert m. induction starts as [|i starts IH]; intros m Hne; [done|].
  cbn [written foldl].
  fold (written pdf_size doc max_pages starts
          (<[part_name i:=part_file pdf_size doc max_pages i]> m)).
  rewrite IH by (intros j Hj; apply Hne; set_solver).
  apply lookup_insert_ne, Hne. set_solver.
Qed.

Lemma written_lookup starts m i :
  NoDup starts → i ∈ starts →
  written pdf_size doc max_pages starts m !! part_name i
  = Some (part_file pdf_size doc max_pages i).
Proof.
  intros Hnd. revert m. induction Hnd as [|j starts Hj Hnd IH]; intros m Hin.
  - by apply elem_of_nil in Hin.
  - cbn [written foldl].
    fold (written pdf_size doc max_pages starts
            (<[part_name j:=part_file pdf_size doc max_pages j]> m)).
    destruct (decide (i = j)) as [->|Hij].
    + rewrite written_other; [apply lookup_insert_eq|].
      intros k Hk Heq. apply part_name_inj in Heq. by subst.
    + apply IH. apply elem_of_cons in Hin as [?|?]; [done|assumption].
Qed.

End split.

Lemma split_pdf_run pdf_size path f doc W w :
  fs w !! path = Some f → file_pages f = Some doc → 0 < W →
  split_pdf pdf_size path W w
  = (Return (map part_name (range_list 0 (Z.of_nat (length doc)) W)),
     mkWorld (self w) (environ w)
             (written pdf_size doc W (range_list 0 (Z.of_nat (length doc)) W) (fs w))
             (trace w ++ EvOpen path (Return doc)
                      :: saves doc W (range_list 0 (Z.of_nat (length doc)) W))).
Proof.
  intros Hf Hdoc HW. unfold split_pdf.
  erewrite bind_Return by (rewrite pymupdf_open_run; by erewrite open_file_pdf).
  erewrite bind_Return; cycle 1.
  { unfold lift, py_range. destruct (Z.eqb_spec W 0) as [->|_]; [lia|reflexivity]. }
  cbn [mu_pages].
  rewrite (split_loop pdf_size doc W) by (done || apply range_list_bounds; lia).
  cbn [self environ fs trace with_trace app]. by rewrite <- app_assoc.
Qed.

Lemma split_pdf_open_raises pdf_size path W w e :
  open_file path (fs w !! path) = Raise e →
  split_pdf pdf_size path W w = (Raise e, with_trace w [EvOpen path (Raise e)]).
Proof.
  intros Hopen. unfold split_pdf. erewrite bind_Raise; [reflexivity|].
  by rewrite pymupdf_open_run, Hopen.
Qed.

Lemma split_pdf_opened pdf_size path doc W w :
  open_file path (fs w !! path) = Return doc →
  split_pdf pdf_size path W w
  = (starts <- lift (py_range 0 (Z.of_nat (length (mu_pages doc))) W) ;;
     for_each (split_body pdf_size doc W) starts [])
      (with_trace w [EvOpen path (Return (mu_pages doc))]).
Proof.
  intros Hopen. unfold split_pdf. erewrite bind_Return; [reflexivity|].
  by rewrite pymupdf_open_run, Hopen.
Qed.

Lemma split_pdf_zero pdf_size path doc w :
  open_file path (fs w !! path) = Return doc →
  split_pdf pdf_size path 0 w
  = (Raise (ValueError "range() arg 3 must not be zero"),
     with_trace w [EvOpen path (Return (mu_pages doc))]).
Proof. intros Hopen. by rewrite (split_pdf_opened _ _ doc). Qed.

Lemma split_pdf_negative pdf_size path doc W w :
  open_file path (fs w !! path) = Return doc → W < 0 →
  split_pdf pdf_size path W w
  = (Return [], with_trace w [EvOpen path (Return (mu_pages doc))]).
Proof.
  intros Hopen HW. rewrite (split_pdf_opened _ _ doc) by done.
  erewrite bind_Return; cycle 1.
  { unfold lift, py_range. destruct (Z.eqb_spec W 0); [lia|reflexivity]. }
  unfold range_list. by rewrite range_length_neg by lia.
Qed.

(** A document that is no PDF fails at the first page to be copied. *)
Lemma split_pdf_not_pdf pdf_size path f page more W w :
  fs w !! path = Some f → file_content f = OtherFormat page more → 0 < W →
  split_pdf pdf_size path W w
  = (Raise (RuntimeError "source or target not a PDF"),
     with_trace w [EvOpen path (Return (page :: more))]).
Proof.
  intros Hf Hcontent HW. unfold split_pdf.
  erewrite bind_Return by (by rewrite pymupdf_open_run, Hf; unfold open_file; rewrite Hcontent).
  erewrite bind_Return; cycle 1.
  { unfold lift, py_range. destruct (Z.eqb_spec W 0) as [->|_]; [lia|reflexivity]. }
  cbn [mu_pages pages_of].
  set (P := Z.of_nat (length (page :: more))).
  assert (1 ≤ P) as HP by (unfold P; simpl; lia).
  pose proof (range_list_lookup P W 0 HW ltac:(lia)) as Hfirst.
  pose proof (ceil_div_spec P W HW) as Hc.
  rewrite bool_decide_eq_true_2 in Hfirst by nia.
  destruct (range_list 0 P W) as [|i starts]; [done|]. injection Hfirst as ->.
  cbn [for_each]. erewrite bind_Raise; [reflexivity|].
  unfold split_body. erewrite bind_Raise; [reflexivity|].
  cbn [mu_pages]. fold P. change (Z.of_nat 0 * W) with 0.
  assert (range_list 0 (Z.min (0 + W) P) 1 = 0 :: range_list 1 (Z.min (0 + W) P) 1)
    as ->.
  { unfold range_list. rewrite !range_length_unit by lia.
    replace (Z.to_nat (Z.min (0 + W) P - 0))
      with (S (Z.to_nat (Z.min (0 + W) P - 1))) by lia.
    cbn [seq map]. f_equal. rewrite <- seq_shift, map_map.
    apply map_ext. intros k. lia. }
  cbn [for_each]. by erewrite bind_Raise by reflexivity.
Qed.
(** ** The loop of [_run] *)

Lemma reports_app gx h h' st : reports gx h st → reports gx (h ++ h') st.
Proof. intros H k pid. rewrite <- app_assoc. apply H. Qed.

Lemma search_answers_app gx h h' : search_answers gx h → search_answers gx (h ++ h').
Proof. intros H k id q n v. rewrite <- app_assoc. apply H. Qed.

Lemma fold_append {A} (found results : list A) :
  fold_left (λ acc text, acc ++ [text]) found results = results ++ found.
Proof.
  revert results. induction found as [|x found IH]; intros results; simpl.
  - by rewrite app_nil_r.
  - rewrite IH. by rewrite <- app_assoc.
Qed.

Lemma run_unfold gx q w pids :
  process_ids (self w) = Some pids →
  _run gx q w
  = match _run_for gx q pids [] w with
    | (Return (inl message), w') => (Return message, w')
    | (Return (inr results), w') =>
        (Return match results with
                | [] => no_results
                | _ => join delimiter results
                end, w')
    | (Raise e, w') => (Raise e, w')
    end.
Proof.
  intros Hp. unfold _run. erewrite bind_Return by (by apply getattr_run).
  unfold bind. by destruct (_run_for gx q pids [] w) as [[[m|r]|e] w'].
Qed.

Lemma searches_rounds b q pids founds :
  length founds = length pids →
  searches (rounds b q pids founds) = replicate (length pids) (b, q, 10, 2).
Proof.
  revert founds. induction pids as [|pid rest IH]; intros [|found founds] Hlen;
    try done.
  unfold rounds. cbn [zip_with concat]. unfold searches. rewrite omap_app.
  cbn. f_equal. apply IH. simpl in Hlen. lia.
Qed.

Section run.
Variable gx : GroundX.
Variable q : string.
Variable b : Z.
Variable st : string → string.

Lemma run_for_step pid rest results w :
  is_Some (client (self w)) → bucket_id (self w) = Some b →
  reports gx (trace w) st → search_answers gx (trace w) →
  st pid = "complete" →
  ∃ found,
    _run_for gx q (pid :: rest) results w
    = _run_for gx q rest (results ++ found) (with_trace w (round b q pid found)).
Proof.
  intros [c Hc] Hb Hst Hsearch Hpid.
  destruct (Hsearch [EvStatus pid (Return "complete")] b q 10 2) as [found Hfound].
  exists found. cbn [_run_for].
  unfold bind at 1. rewrite (getattr_run _ _ _ c Hc).
  unfold bind at 1. rewrite perform_run.
  pose proof (Hst [] pid) as Hs. rewrite app_nil_r in Hs. rewrite Hs, Hpid.
  rewrite bool_decide_eq_false_2 by (intros ?; done).
  unfold bind at 1. rewrite (getattr_run _ _ _ c) by done.
  unfold bind at 1. rewrite (getattr_run _ _ _ b) by done.
  unfold bind at 1. rewrite perform_run. cbn [trace with_trace].
  rewrite Hfound, with_trace_app, fold_append. done.
Qed.

Lemma run_for_all_complete pids : ∀ results w,
  is_Some (client (self w)) → bucket_id (self w) = Some b →
  reports gx (trace w) st → search_answers gx (trace w) →
  Forall (λ pid, st pid = "complete") pids →
  ∃ founds,
    length founds = length pids ∧
    _run_for gx q pids results w
    = (Return (inr (results ++ concat founds)), with_trace w (rounds b q pids founds)).
Proof.
  induction pids as [|pid rest IH]; intros results w Hc Hb Hst Hsearch Hall.
  - exists []. split; [done|]. simpl. unfold ret, rounds. simpl.
    by rewrite app_nil_r, with_trace_nil.
  - apply Forall_cons in Hall as [Hpid Hall].
    destruct (run_for_step pid rest results w Hc Hb Hst Hsearch Hpid) as [found ->].
    destruct (IH (results ++ found) (with_trace w (round b q pid found)))
      as (founds & Hlen & ->); try done.
    { by apply reports_app. }
    { by apply search_answers_app. }
    exists (found :: founds). split; [simpl; lia|].
    rewrite with_trace_app. simpl. by rewrite <- app_assoc.
Qed.

Lemma run_for_pending pids : ∀ results w,
  is_Some (client (self w)) → bucket_id (self w) = Some b →
  reports gx (trace w) st → search_answers gx (trace w) →
  Exists (λ pid, st pid ≠ "complete") pids →
  fst (_run_for gx q pids results w) = Return (inl still_processing).
Proof.
  induction pids as [|pid rest IH]; intros results w Hc Hb Hst Hsearch Hex.
  - by apply Exists_nil in Hex.
  - destruct (decide (st pid = "complete")) as [Hpid|Hpid].
    + destruct (run_for_step pid rest results w Hc Hb Hst Hsearch Hpid) as [found ->].
      apply IH; try done.
      * by apply reports_app.
      * by apply search_answers_app.
      * apply Exists_cons in Hex as [?|?]; [done|assumption].
    + destruct Hc as [c Hc]. cbn [_run_for].
      unfold bind at 1. rewrite (getattr_run _ _ _ c Hc).
      unfold bind at 1. rewrite perform_run.
      pose proof (Hst [] pid) as Hs. rewrite app_nil_r in Hs. rewrite Hs.
      by rewrite bool_decide_eq_true_2.
Qed.

End run.

Section query.
Variable gx : GroundX.
Variable q : string.

Lemma run_for_only_logs pids : ∀ results, only_logs (_run_for gx q pids results).
Proof.
  induction pids as [|pid rest IH]; intros results; cbn [_run_for].
  - apply only_logs_ret.
  - apply only_logs_bind; [apply only_logs_getattr|intros _].
    apply only_logs_bind; [apply only_logs_perform|intros status].
    case_bool_decide; [apply only_logs_ret|].
    apply only_logs_bind; [apply only_logs_getattr|intros _].
    apply only_logs_bind; [apply only_logs_getattr|intros b].
    apply only_logs_bind; [apply only_logs_perform|intros found]. apply IH.
Qed.

Lemma run_only_logs : only_logs (_run gx q).
Proof.
  unfold _run. apply only_logs_bind; [apply only_logs_getattr|intros pids].
  apply only_logs_bind; [apply run_for_only_logs|intros [message|results]];
    apply only_logs_ret.
Qed.

Lemma run_for_trace b pids : ∀ results w,
  is_Some (client (self w)) → bucket_id (self w) = Some b →
  ∃ out delta,
    _run_for gx q pids results w = (out, with_trace w delta) ∧
    loop_trace b q pids delta.
Proof.
  induction pids as [|pid rest IH]; intros results w [c Hc] Hb.
  - exists (Return (inr results)), []. rewrite with_trace_nil.
    split; [done|constructor].
  - cbn [_run_for].
    erewrite bind_Return by (by apply getattr_run).
    destruct (get_processing_status_by_id gx (trace w) pid) as [status|e] eqn:Hs.
    + erewrite bind_Return by (by rewrite perform_run, Hs).
      case_bool_decide as Hstatus.
      { eexists _, _. split; [reflexivity|]. by constructor. }
      subst status.
      erewrite bind_Return by (by apply getattr_run).
      erewrite bind_Return by (by apply getattr_run).
      set (w1 := with_trace w [EvStatus pid (Return "complete")]).
      destruct (search_content gx (trace w1) b q 10 2) as [found|e] eqn:Hf.
      * erewrite bind_Return by (by rewrite perform_run, Hf).
        destruct (IH (fold_left (λ acc text, acc ++ [text]) found results)
                     (with_trace w1 [EvSearch b q 10 2 (Return found)]))
          as (out & delta & -> & Hdelta); [by exists c|done|].
        exists out. eexists. unfold w1. rewrite !with_trace_app.
        split; [reflexivity|]. by constructor.
      * erewrite bind_Raise by (by rewrite perform_run, Hf).
        eexists _, _. unfold w1. rewrite with_trace_app.
        split; [reflexivity|]. constructor.
    + erewrite bind_Raise by (by rewrite perform_run, Hs).
      eexists _, _. split; [reflexivity|]. constructor.
Qed.

End query.

Lemma upload_document_only_logs gx part : only_logs (_upload_document gx part).
Proof.
  unfold _upload_document.
  apply only_logs_bind; [apply only_logs_getattr|intros _].
  apply only_logs_bind; [apply only_logs_getattr|intros b]. apply only_logs_perform.
Qed.

Lemma create_bucket_only_logs gx : only_logs (_create_bucket gx).
Proof.
  unfold _create_bucket.
  apply only_logs_bind; [apply only_logs_getattr|intros _]. apply only_logs_perform.
Qed.

Lemma loop_trace_search b q pids delta :
  loop_trace b q pids delta →
  ∀ pre id q' n v r post, delta = pre ++ EvSearch id q' n v r :: post →
    (id, q', n, v) = (b, q, 10, 2) ∧
    (length (searches pre) < length pids)%nat ∧
    checks pre = map (λ pid, (pid, Return "complete"))
                     (take (S (length (searches pre))) pids).
Proof.
  induction 1 as [|pid rest e|pid rest status Hs|pid rest e|pid rest found tl Htl IH];
    intros pre id q' n v r post Heq.
  - by destruct pre.
  - destruct pre as [|? [|? ?]]; discriminate.
  - destruct pre as [|? [|? ?]]; discriminate.
  - destruct pre as [|? [|? [|? ?]]]; try discriminate.
    injection Heq as <- <- <- <- <- <- <-. simpl. split; [done|]. split; [lia|done].
  - destruct pre as [|e1 [|e2 pre]]; try discriminate.
    + injection Heq as <- <- <- <- <- <- <-. simpl. split; [done|]. split; [lia|done].
    + injection Heq as <- <- Heq.
      destruct (IH pre id q' n v r post Heq) as (Hreq & Hlt & Hchecks).
      split; [done|]. simpl. split; [lia|]. by rewrite Hchecks.
Qed.

Lemma loop_trace_checks b q pids delta :
  loop_trace b q pids delta → map fst (checks delta) `prefix_of` pids.
Proof.
  induction 1 as [|pid rest e|pid rest status Hs|pid rest e|pid rest found tl Htl IH];
    simpl.
  - done.
  - by exists rest.
  - by exists rest.
  - by exists rest.
  - by apply prefix_cons.
Qed.

(** ** The constructor *)

Lemma ingested_uploads b parts pids :
  ingested (uploads b parts pids)
  = zip_with (λ part pid, (document b part, Return pid)) parts pids.
Proof.
  revert pids. induction parts as [|part parts IH]; intros [|pid pids]; try done.
  unfold uploads, ingested. cbn. f_equal. apply IH.
Qed.

Lemma ingested_saves doc W starts : ingested (saves doc W starts) = [].
Proof. by induction starts. Qed.

Lemma not_opened_ingest path delta : Forall is_ingest delta → ¬ opened path delta.
Proof.
  intros Hall [r Hin]. rewrite Forall_forall in Hall. by apply Hall in Hin.
Qed.

Section init.
Variable gx : GroundX.
Variable pdf_size : list Page → Z.

Lemma create_bucket_run w c :
  client (self w) = Some c →
  _create_bucket gx w
  = (buckets_create gx (trace w) "agentic_rag",
     with_trace w [EvBucketsCreate "agentic_rag"
                     (buckets_create gx (trace w) "agentic_rag")]).
Proof.
  intros Hc. unfold _create_bucket.
  erewrite bind_Return by (by apply getattr_run). by rewrite perform_run.
Qed.

Lemma init_bucket_raises path w e :
  buckets_create gx (trace w) "agentic_rag" = Raise e →
  __init__ gx pdf_size path w
  = (Raise e,
     mkWorld (mkSelf (Some path) (Some (mkClient (environ w !! "GROUNDX_API_KEY")))
                     None None None)
             (environ w) (fs w) (trace w ++ [EvBucketsCreate "agentic_rag" (Raise e)])).
Proof.
  intros Hr. unfold __init__.
  do 4 (erewrite bind_Return by reflexivity).
  erewrite bind_Raise; [reflexivity|].
  erewrite create_bucket_run by reflexivity. cbn. by rewrite Hr.
Qed.

Lemma init_bucket_created path w b :
  buckets_create gx (trace w) "agentic_rag" = Return b →
  __init__ gx pdf_size path w
  = (check_file_size pdf_size path ;;; upload_parts gx) (created path b w).
Proof.
  intros Hr. unfold __init__.
  do 4 (erewrite bind_Return by reflexivity).
  erewrite (bind_Return (_create_bucket gx)); cycle 1.
  { erewrite create_bucket_run by reflexivity. cbn. by rewrite Hr. }
  erewrite bind_Return by reflexivity.
  unfold check_file_size. by rewrite bind_assoc.
Qed.

Lemma getsize_run path w :
  getsize path w
  = (match fs w !! path with
     | Some f => Return (file_size f)
     | None => Raise (FileNotFoundError path)
     end,
     with_trace w [EvGetSize path
                     match fs w !! path with
                     | Some f => Return (file_size f)
                     | None => Raise (FileNotFoundError path)
                     end]).
Proof. unfold getsize. by rewrite perform_run. Qed.

Lemma check_missing path w :
  fs w !! path = None →
  check_file_size pdf_size path w
  = (Raise (FileNotFoundError path),
     with_trace w [EvGetSize path (Raise (FileNotFoundError path))]).
Proof.
  intros Hf. unfold check_file_size.
  erewrite bind_Raise; [reflexivity|]. by rewrite getsize_run, Hf.
Qed.

Lemma check_small path f w :
  fs w !! path = Some f → file_size f ≤ size_limit →
  check_file_size pdf_size path w
  = (Return tt,
     with_self (with_trace w [EvGetSize path (Return (file_size f))])
               (set_pdf_parts [path] (self w))).
Proof.
  intros Hf Hsize. unfold check_file_size.
  erewrite bind_Return by (by rewrite getsize_run, Hf).
  destruct (Z.ltb_spec size_limit (file_size f)); [lia|done].
Qed.

Lemma check_large path f doc w :
  fs w !! path = Some f → size_limit < file_size f → file_pages f = Some doc →
  check_file_size pdf_size path w
  = (Return tt,
     mkWorld (set_pdf_parts (map part_name (range_list 0 (Z.of_nat (length doc)) 10))
                            (self w))
             (environ w)
             (written pdf_size doc 10 (range_list 0 (Z.of_nat (length doc)) 10) (fs w))
             (trace w ++ split_effects path f doc)).
Proof.
  intros Hf Hsize Hdoc. unfold check_file_size.
  erewrite bind_Return by (by rewrite getsize_run, Hf).
  destruct (Z.ltb_spec size_limit (file_size f)); [|lia].
  erewrite bind_Return by reflexivity.
  erewrite bind_Return by (by apply (split_pdf_run _ _ f doc)).
  unfold set_self, split_effects. cbn. by rewrite <- !app_assoc.
Qed.

(** A file over the limit on which [split_pdf] raises [e] after opening
    it with outcome [r]. *)
Lemma check_large_split_raises path f w e r :
  fs w !! path = Some f → size_limit < file_size f →
  (∀ w', fs w' = fs w →
         split_pdf pdf_size path 10 w' = (Raise e, with_trace w' [EvOpen path r])) →
  check_file_size pdf_size path w
  = (Raise e,
     with_trace w [EvGetSize path (Return (file_size f));
                   EvPrint "PDF is too large! Splitting into smaller parts...";
                   EvOpen path r]).
Proof.
  intros Hf Hsize Hsplit. unfold check_file_size.
  erewrite bind_Return by (by rewrite getsize_run, Hf).
  destruct (Z.ltb_spec size_limit (file_size f)); [|lia].
  erewrite bind_Return by reflexivity.
  erewrite bind_Raise; [reflexivity|].
  rewrite Hsplit by done. unfold with_trace, print, log. cbn.
  by rewrite <- !app_assoc.
Qed.

Lemma check_large_unopenable path f w :
  fs w !! path = Some f → size_limit < file_size f → file_content f = Unopenable →
  check_file_size pdf_size path w
  = (Raise (FileDataError path),
     with_trace w [EvGetSize path (Return (file_size f));
                   EvPrint "PDF is too large! Splitting into smaller parts...";
                   EvOpen path (Raise (FileDataError path))]).
Proof.
  intros Hf Hsize Hcontent. apply (check_large_split_raises path f); [done..|].
  intros w' Hw'. apply split_pdf_open_raises.
  rewrite Hw', Hf. unfold open_file. by rewrite Hcontent.
Qed.

Lemma check_large_not_pdf path f page more w :
  fs w !! path = Some f → size_limit < file_size f →
  file_content f = OtherFormat page more →
  check_file_size pdf_size path w
  = (Raise (RuntimeError "source or target not a PDF"),
     with_trace w [EvGetSize path (Return (file_size f));
                   EvPrint "PDF is too large! Splitting into smaller parts...";
                   EvOpen path (Return (page :: more))]).
Proof.
  intros Hf Hsize Hcontent. apply (check_large_split_raises path f); [done..|].
  intros w' Hw'. apply (split_pdf_not_pdf _ _ f); [by rewrite Hw'|done|lia].
Qed.

(** A file over the limit that is no PDF makes the size check fail. *)
Lemma check_large_fails path f w :
  fs w !! path = Some f → size_limit < file_size f → file_pages f = None →
  ∃ e r,
    check_file_size pdf_size path w
    = (Raise e,
       with_trace w [EvGetSize path (Return (file_size f));
                     EvPrint "PDF is too large! Splitting into smaller parts...";
                     EvOpen path r]).
Proof.
  intros Hf Hsize Hdoc. unfold file_pages in Hdoc.
  destruct (file_content f) as [pages|page more|] eqn:Hcontent; [done|..].
  - eexists _, _. by apply (check_large_not_pdf path f page more).
  - eexists _, _. by apply check_large_unopenable.
Qed.

Lemma upload_document_run b part w :
  is_Some (client (self w)) → bucket_id (self w) = Some b →
  _upload_document gx part w
  = (ingest gx (trace w) (document b part) (fs w !! part),
     with_trace w [EvIngest (document b part)
                     (ingest gx (trace w) (document b part) (fs w !! part))]).
Proof.
  intros [c Hc] Hb. unfold _upload_document.
  erewrite bind_Return by (by apply getattr_run).
  erewrite bind_Return by (by apply getattr_run).
  by rewrite perform_run.
Qed.

Lemma upload_loop b parts : ∀ acc w,
  is_Some (client (self w)) → bucket_id (self w) = Some b →
  ∃ out delta,
    for_each (upload_body gx) parts acc w = (out, with_trace w delta) ∧
    Forall is_ingest delta ∧
    ∀ pids, out = Return pids →
      ∃ new, pids = acc ++ new ∧ length new = length parts ∧
             delta = uploads b parts new.
Proof.
  induction parts as [|part rest IH]; intros acc w Hc Hb.
  - exists (Return acc), []. rewrite with_trace_nil. split; [done|].
    split; [constructor|]. intros pids [= <-]. exists []. by rewrite app_nil_r.
  - cbn [for_each]. unfold upload_body at 1.
    destruct (ingest gx (trace w) (document b part) (fs w !! part))
      as [pid|e] eqn:Hingest.
    + erewrite bind_Return; cycle 1.
      { erewrite bind_Return; [reflexivity|].
        rewrite (upload_document_run b) by done. by rewrite Hingest. }
      destruct (IH (acc ++ [pid]) (with_trace w [EvIngest (document b part) (Return pid)]))
        as (out & delta & -> & Hdelta & Hout); [done..|].
      exists out, (EvIngest (document b part) (Return pid) :: delta).
      rewrite with_trace_app. split; [done|]. split; [by constructor|].
      intros pids Hpids. destruct (Hout pids Hpids) as (new & -> & Hlen & ->).
      exists (pid :: new). rewrite <- app_assoc. split; [done|].
      split; [simpl; lia|done].
    + exists (Raise e), [EvIngest (document b part) (Raise e)].
      split; [|split; [by repeat constructor|done]].
      erewrite bind_Raise; [reflexivity|].
      erewrite bind_Raise; [reflexivity|].
      rewrite (upload_document_run b) by done. by rewrite Hingest.
Qed.

End init.

Section construction.
Variable gx : GroundX.
Variable pdf_size : list Page → Z.

Lemma init_tail b path w1 w2 parts :
  check_file_size pdf_size path w1 = (Return tt, w2) →
  is_Some (client (self w2)) → bucket_id (self w2) = Some b →
  pdf_parts (self w2) = Some parts →
  ∃ delta,
    Forall is_ingest delta ∧
    trace (snd ((check_file_size pdf_size path ;;; upload_parts gx) w1))
    = trace w2 ++ delta ∧
    fs (snd ((check_file_size pdf_size path ;;; upload_parts gx) w1)) = fs w2 ∧
    pdf_parts (self (snd ((check_file_size pdf_size path ;;; upload_parts gx) w1)))
    = Some parts ∧
    bucket_id (self (snd ((check_file_size pdf_size path ;;; upload_parts gx) w1)))
    = Some b ∧
    (fst ((check_file_size pdf_size path ;;; upload_parts gx) w1) = Return tt →
     ∃ pids,
       process_ids (self (snd ((check_file_size pdf_size path ;;; upload_parts gx) w1)))
       = Some pids ∧
       length pids = length parts ∧ delta = uploads b parts pids).
Proof.
  intros Hcheck Hc Hb Hparts.
  rewrite (bind_Return _ _ _ _ _ Hcheck). unfold upload_parts.
  erewrite bind_Return by (by apply getattr_run).
  destruct (upload_loop gx b parts [] w2 Hc Hb) as (out & delta & Hloop & Hdelta & Hout).
  exists delta. split; [done|]. fold (upload_body gx).
  destruct out as [pids|e].
  - erewrite bind_Return by exact Hloop.
    destruct (Hout pids eq_refl) as (new & -> & Hlen & ->).
    cbn. repeat (split; [done|]). intros _. by exists new.
  - erewrite bind_Raise by exact Hloop. cbn. by repeat (split; [done|]).
Qed.

Lemma init_existing_file path f w b :
  fs w !! path = Some f →
  buckets_create gx (trace w) "agentic_rag" = Return b →
  ∃ parts delta,
    Forall is_ingest delta ∧
    (fst (__init__ gx pdf_size path w) = Return tt →
     ∃ pids,
       process_ids (self (snd (__init__ gx pdf_size path w))) = Some pids ∧
       pdf_parts (self (snd (__init__ gx pdf_size path w))) = Some parts ∧
       bucket_id (self (snd (__init__ gx pdf_size path w))) = Some b ∧
       length pids = length parts ∧ delta = uploads b parts pids) ∧
    ((file_size f ≤ size_limit ∧ parts = [path] ∧
      pdf_parts (self (snd (__init__ gx pdf_size path w))) = Some parts ∧
      fs (snd (__init__ gx pdf_size path w)) = fs w ∧
      effects_of (__init__ gx pdf_size path) w
      = EvBucketsCreate "agentic_rag" (Return b)
        :: EvGetSize path (Return (file_size f)) :: delta) ∨
     (size_limit < file_size f ∧ file_pages f = None ∧ delta = [] ∧
      ∃ e r,
        fst (__init__ gx pdf_size path w) = Raise e ∧
        effects_of (__init__ gx pdf_size path) w
        = [EvBucketsCreate "agentic_rag" (Return b);
           EvGetSize path (Return (file_size f));
           EvPrint "PDF is too large! Splitting into smaller parts...";
           EvOpen path r]) ∨
     (∃ doc,
        size_limit < file_size f ∧ file_pages f = Some doc ∧
        parts = map part_name (range_list 0 (Z.of_nat (length doc)) 10) ∧
        pdf_parts (self (snd (__init__ gx pdf_size path w))) = Some parts ∧
        fs (snd (__init__ gx pdf_size path w))
        = written pdf_size doc 10 (range_list 0 (Z.of_nat (length doc)) 10) (fs w) ∧
        effects_of (__init__ gx pdf_size path) w
        = EvBucketsCreate "agentic_rag" (Return b) :: split_effects path f doc ++ delta)).
Proof.
  intros Hf Hr. rewrite (init_bucket_created gx pdf_size path w b Hr).
  unfold effects_of. rewrite (init_bucket_created gx pdf_size path w b Hr).
  destruct (Z.le_gt_cases (file_size f) size_limit) as [Hsmall|Hlarge].
  - destruct (init_tail b path (created path b w) _ [path]
                (check_small pdf_size path f (created path b w) Hf Hsmall))
      as (delta & Hdelta & Htrace & Hfs & Hparts & Hb & Hok);
      [by eexists|done|done|].
    exists [path], delta. split; [done|]. split.
    { intros Hret. destruct (Hok Hret) as (pids & ? & ? & ?). by exists pids. }
    left. repeat (split; [done|]). rewrite Htrace. cbn [trace with_self with_trace created].
    rewrite <- !app_assoc. by rewrite drop_app_length.
  - destruct (file_pages f) as [doc|] eqn:Hdoc.
    + destruct (init_tail b path (created path b w) _
                  (map part_name (range_list 0 (Z.of_nat (length doc)) 10))
                  (check_large pdf_size path f doc (created path b w) Hf Hlarge Hdoc))
        as (delta & Hdelta & Htrace & Hfs & Hparts & Hb & Hok);
        [by eexists|done|done|].
      exists (map part_name (range_list 0 (Z.of_nat (length doc)) 10)), delta.
      split; [done|]. split.
      { intros Hret. destruct (Hok Hret) as (pids & ? & ? & ?). by exists pids. }
      right. right. exists doc. repeat (split; [done|]).
      rewrite Htrace. cbn [trace created].
      rewrite <- !app_assoc. by rewrite drop_app_length.
    + exists [], []. split; [constructor|].
      destruct (check_large_fails pdf_size path f (created path b w) Hf Hlarge Hdoc)
        as (e & r & Hcheck).
      rewrite (bind_Raise _ _ _ _ _ Hcheck).
      split; [done|]. right. left. repeat (split; [done|]). exists e, r.
      split; [done|].
      cbn [snd trace with_trace created]. rewrite <- !app_assoc.
      by rewrite drop_app_length.
Qed.

End construction.

(** * The claims *)

(** ** split_pdf *)

(** C1.  For a PDF document of P pages and a window size W > 0,
    [split_pdf] returns ceil(P/W) parts, where ceil(P/W) is the number n
    with W(n-1) < P <= Wn.  Part k holds the pages from index kW on, at most
    W of them: each of the first n-1 parts holds exactly W pages, and the
    last one holds P - W(n-1) pages, a number between 1 and W. *)
Theorem split_pdf_part_sizes pdf_size path f doc W w :
  fs w !! path = Some f → file_pages f = Some doc → 0 < W →
  let P := Z.of_nat (length doc) in
  let n := ceil_div P W in
  W * (n - 1) < P ≤ W * n ∧
  ∃ parts w',
    split_pdf pdf_size path W w = (Return parts, w') ∧
    Z.of_nat (length parts) = n ∧
    ∀ (k : nat) part, parts !! k = Some part →
      ∃ g pages,
        fs w' !! part = Some g ∧ file_pages g = Some pages ∧
        pages = take (Z.to_nat W) (drop (Z.to_nat (Z.of_nat k * W)) doc) ∧
        (Z.of_nat k < n - 1 → Z.of_nat (length pages) = W) ∧
        (Z.of_nat k = n - 1 →
           Z.of_nat (length pages) = P - W * (n - 1) ∧ 1 ≤ P - W * (n - 1) ≤ W).
Proof.
  intros Hf Hdoc HW P n.
  pose proof (ceil_div_spec P W HW) as Hc. fold n in Hc. split; [done|].
  eexists _, _. split; [by apply (split_pdf_run _ _ f doc)|].
  fold P. split; [by rewrite length_map, range_list_length by lia|].
  intros k part Hk. rewrite list_lookup_fmap, range_list_lookup in Hk by lia.
  fold n in Hk. case_bool_decide as Hlt; [|done]. injection Hk as <-.
  exists (part_file pdf_size doc W (Z.of_nat k * W)), (window doc W (Z.of_nat k * W)).
  cbn [fs]. split.
  { apply written_lookup; [apply range_list_NoDup; lia|].
    apply list_elem_of_lookup. exists k. rewrite range_list_lookup by lia.
    fold n. by rewrite bool_decide_eq_true_2. }
  split; [done|]. split; [done|].
  pose proof (window_length doc W (Z.of_nat k * W) HW ltac:(nia)) as Hlen.
  fold P in Hlen. split; intros Hkn; nia.
Qed.

Lemma split_pdf_part_sizes_witness :
  ∃ parts w',
    split_pdf demo_size "big.pdf" 10
      (demo_world "big.pdf" (mkFile 20000000 (Some (demo_pages 25))))
    = (Return parts, w') ∧
    Z.of_nat (length parts) = 3.
Proof.
  destruct (split_pdf_part_sizes demo_size "big.pdf"
              (mkFile 20000000 (Some (demo_pages 25))) (demo_pages 25) 10
              (demo_world "big.pdf" (mkFile 20000000 (Some (demo_pages 25)))))
    as (_ & parts & w' & Hrun & Hlen & _).
  - vm_compute. reflexivity.
  - reflexivity.
  - lia.
  - exists parts, w'. split; [exact Hrun|exact Hlen].
Defined.

(** C7, as the code has it.  For a PDF document of P pages with
    1 <= P <= W, [split_pdf] returns exactly one part, and that part holds
    all P pages.  For a PDF document without pages, [split_pdf] produces no
    part: it opens the document and writes nothing, whatever W is; it
    returns the empty list when W is not 0, and raises the ValueError of
    [range] when W is 0. *)
Theorem split_pdf_single_part pdf_size path f doc W w :
  fs w !! path = Some f → file_pages f = Some doc →
  (1 ≤ Z.of_nat (length doc) ≤ W → one_part_with_all_pages pdf_size path doc W w) ∧
  (Z.of_nat (length doc) = 0 →
   snd (split_pdf pdf_size path W w) = with_trace w [EvOpen path (Return [])] ∧
   (W ≠ 0 → fst (split_pdf pdf_size path W w) = Return []) ∧
   (W = 0 →
    fst (split_pdf pdf_size path W w)
    = Raise (ValueError "range() arg 3 must not be zero"))).
Proof.
  intros Hf Hdoc. split.
  - intros HP.
    assert (range_list 0 (Z.of_nat (length doc)) W = [0]) as Hstarts.
    { unfold range_list. rewrite range_length_pos by lia.
      assert (ceil_div (Z.of_nat (length doc)) W = 1) as ->; [|done].
      pose proof (ceil_div_spec (Z.of_nat (length doc)) W ltac:(lia)). nia. }
    pose proof (split_pdf_run pdf_size path f doc W w Hf Hdoc ltac:(lia)) as Hrun.
    rewrite Hstarts in Hrun.
    exists (part_name 0), (part_file pdf_size doc W 0). eexists.
    split; [exact Hrun|]. split.
    + apply lookup_insert_eq.
    + cbn. unfold window. simpl. f_equal. apply take_ge. lia.
  - intros HP. destruct doc as [|page doc]; [|simpl in HP; lia].
    pose proof (open_file_pdf path _ f [] Hf Hdoc) as Hopen.
    destruct (Z.lt_trichotomy W 0) as [Hneg|[->|Hpos]].
    + rewrite (split_pdf_negative _ _ _ _ _ Hopen Hneg).
      split; [done|]. split; [done|lia].
    + rewrite (split_pdf_zero _ _ _ _ Hopen). split; [done|]. split; [done|done].
    + rewrite (split_pdf_run pdf_size path f [] W w Hf Hdoc Hpos).
      assert (range_list 0 (Z.of_nat (length (@nil Page))) W = []) as ->.
      { unfold range_list, range_length. by destruct (0 <? W). }
      split; [done|]. split; [done|lia].
Qed.

Lemma split_pdf_single_part_witness :
  one_part_with_all_pages demo_size "small.pdf" (demo_pages 3) 10
    (demo_world "small.pdf" (mkFile 20000000 (Some (demo_pages 3)))) ∧
  fst (split_pdf demo_size "empty.pdf" 10
         (demo_world "empty.pdf" (mkFile 400 (Some []))))
  = Return [].
Proof.
  split.
  - apply (split_pdf_single_part demo_size "small.pdf"
             (mkFile 20000000 (Some (demo_pages 3))) (demo_pages 3) 10
             (demo_world "small.pdf" (mkFile 20000000 (Some (demo_pages 3))))).
    + vm_compute. reflexivity.
    + reflexivity.
    + vm_compute. split; discriminate.
  - apply (split_pdf_single_part demo_size "empty.pdf" (mkFile 400 (Some [])) [] 10
             (demo_world "empty.pdf" (mkFile 400 (Some [])))).
    + vm_compute. reflexivity.
    + reflexivity.
    + reflexivity.
    + lia.
Defined.

(** C7 as stated fails for a document without pages: P = 0 <= W, and
    [split_pdf] returns no part at all. *)
Lemma split_pdf_empty_document_no_part :
  Z.of_nat (length (@nil Page)) ≤ 10 ∧
  fst (split_pdf demo_size "empty.pdf" 10 (demo_world "empty.pdf" (mkFile 400 (Some []))))
  = Return [] ∧
  ¬ one_part_with_all_pages demo_size "empty.pdf" [] 10
      (demo_world "empty.pdf" (mkFile 400 (Some []))).
Proof.
  split; [simpl; lia|]. split; [vm_compute; reflexivity|].
  intros (part & g & w' & Hrun & _). vm_compute in Hrun. discriminate.
Qed.

(** C9.  For a nonzero window size, the windows start at the indices
    [range(0, P, W)], that is at 0, W, 2W, ...; the part whose window starts
    at index i is saved under the name split_i.pdf, a bare file name (no
    directory separator, so it is resolved in the current working
    directory); the saves happen in increasing order of i, the file written
    for i holds the pages of that window, and the returned list is the list
    of these names in the same order. *)
Theorem split_pdf_part_paths pdf_size path f doc W w :
  fs w !! path = Some f → file_pages f = Some doc → W ≠ 0 →
  let starts := range_list 0 (Z.of_nat (length doc)) W in
  let out := split_pdf pdf_size path W w in
  (∀ (k : nat) i, starts !! k = Some i → i = Z.of_nat k * W) ∧
  (∀ (j k : nat) ij ik,
     starts !! j = Some ij → starts !! k = Some ik → (j < k)%nat → ij < ik) ∧
  fst out = Return (map (λ i, "split_" +:+ pretty i +:+ ".pdf") starts) ∧
  effects_of (split_pdf pdf_size path W) w
  = EvOpen path (Return doc)
    :: map (λ i, EvSave ("split_" +:+ pretty i +:+ ".pdf")
                        (take (Z.to_nat W) (drop (Z.to_nat i) doc))) starts ∧
  (∀ i, i ∈ starts → has_slash ("split_" +:+ pretty i +:+ ".pdf") = false) ∧
  ∀ i, i ∈ starts →
    fs (snd out) !! ("split_" +:+ pretty i +:+ ".pdf")
    = Some (mkFile (pdf_size (take (Z.to_nat W) (drop (Z.to_nat i) doc)))
                   (Some (take (Z.to_nat W) (drop (Z.to_nat i) doc)))).
Proof.
  intros Hf Hdoc HW starts out.
  destruct (Z.lt_trichotomy W 0) as [Hneg|[->|Hpos]]; [|done|].
  - assert (starts = []) as Hnil.
    { unfold starts, range_list. by rewrite range_length_neg by lia. }
    assert (out = (Return [], with_trace w [EvOpen path (Return doc)])) as Hout.
    { apply (split_pdf_negative _ _ (mkMuDocument true doc)); [|done].
      by apply (open_file_pdf _ _ f). }
    rewrite Hnil. split; [by intros k i Hk|]. split; [by intros j k ij ik Hj|].
    split; [by rewrite Hout|].
    split; [|split; by intros i Hi%elem_of_nil].
    apply effects_of_trace. fold out. by rewrite Hout.
  - assert (out = (Return (map part_name starts),
                   mkWorld (self w) (environ w) (written pdf_size doc W starts (fs w))
                           (trace w ++ EvOpen path (Return doc) :: saves doc W starts)))
      as Hout by (by apply (split_pdf_run _ _ f doc)).
    assert (∀ (k : nat) i, starts !! k = Some i → i = Z.of_nat k * W) as Hstart.
    { intros k i Hk. unfold starts in Hk. rewrite range_list_lookup in Hk by lia.
      case_bool_decide; [|done]. by injection Hk as <-. }
    split; [done|]. split; [|split; [by rewrite Hout|split; [|split]]].
    + intros j k ij ik Hj Hk Hjk. apply Hstart in Hj, Hk. nia.
    + apply effects_of_trace. fold out. by rewrite Hout.
    + intros i _. apply part_name_no_slash.
    + intros i Hi. rewrite Hout. cbn [snd fs].
      apply (written_lookup pdf_size doc W starts); [|done].
      apply range_list_NoDup; lia.
Qed.

Lemma split_pdf_part_paths_witness :
  fst (split_pdf demo_size "big.pdf" 10
         (demo_world "big.pdf" (mkFile 20000000 (Some (demo_pages 25)))))
  = Return (map (λ i, "split_" +:+ pretty i +:+ ".pdf") [0; 10; 20]).
Proof.
  apply (split_pdf_part_paths demo_size "big.pdf"
           (mkFile 20000000 (Some (demo_pages 25))) (demo_pages 25) 10
           (demo_world "big.pdf" (mkFile 20000000 (Some (demo_pages 25))))).
  - vm_compute. reflexivity.
  - reflexivity.
  - lia.
Defined.

(** ** Queries *)

(** C2.  On a constructed tool, when the service reports a status other
    than "complete" for at least one recorded job (whatever it reports for
    the others) and the requests of the invocation do not fail, [_run]
    returns the sentinel "Document is still being processed...". *)
Theorem run_still_processing gx q w pids b st :
  ready w pids b → reports gx (trace w) st → search_answers gx (trace w) →
  (∃ pid, pid ∈ pids ∧ st pid ≠ "complete") →
  fst (_run gx q w) = Return "Document is still being processed...".
Proof.
  intros (Hc & Hb & Hp) Hst Hsearch Hex.
  pose proof (run_for_pending gx q b st pids [] w Hc Hb Hst Hsearch) as Hrun.
  rewrite (run_unfold gx q w pids Hp).
  destruct (_run_for gx q pids [] w) as [out w']. simpl in Hrun.
  rewrite Hrun; [done|]. apply Exists_exists. destruct Hex as (pid & ? & ?). eauto.
Qed.

Lemma run_still_processing_witness :
  fst (_run (demo_service second_pending ["A"; "B"]) "wing load"
            (demo_tool ["a.pdf"; "b.pdf"; "c.pdf"] ["job-a"; "job-b"; "job-c"]))
  = Return "Document is still being processed...".
Proof.
  apply (run_still_processing _ _ _ ["job-a"; "job-b"; "job-c"] 7 second_pending).
  - split; [by eexists|]. split; reflexivity.
  - intros h pid. reflexivity.
  - intros h id q n v. eexists. reflexivity.
  - exists "job-b". split; [|vm_compute; discriminate].
    apply elem_of_cons. right. apply elem_of_cons. by left.
Defined.

(** C3.  On a constructed tool, when the service reports every recorded
    job complete and the searches do not fail, [_run] returns the fragments
    of all search answers, in order, joined by a newline, four underscores
    and a newline, or "No relevant information found." when there is no
    fragment.  The fragments A and B give A, newline, four underscores,
    newline, B. *)
Theorem run_joins_fragments gx q w pids b st :
  ready w pids b → reports gx (trace w) st → search_answers gx (trace w) →
  (∀ pid, pid ∈ pids → st pid = "complete") →
  ∃ founds,
    length founds = length pids ∧
    effects_of (_run gx q) w = rounds b q pids founds ∧
    fst (_run gx q w)
    = Return match concat founds with
             | [] => "No relevant information found."
             | fragments => join (newline +:+ "____" +:+ newline) fragments
             end ∧
    (concat founds = [] → fst (_run gx q w) = Return "No relevant information found.") ∧
    (concat founds = ["A"; "B"] →
       fst (_run gx q w) = Return ("A" +:+ newline +:+ "____" +:+ newline +:+ "B")).
Proof.
  intros (Hc & Hb & Hp) Hst Hsearch Hall.
  destruct (run_for_all_complete gx q b st pids [] w Hc Hb Hst Hsearch)
    as (founds & Hlen & Hrun); [by apply Forall_forall|].
  exists founds. split; [done|].
  assert (_run gx q w
          = (Return match concat founds with
                    | [] => no_results
                    | fragments => join delimiter fragments
                    end, with_trace w (rounds b q pids founds))) as Heq.
  { rewrite (run_unfold gx q w pids Hp), Hrun. cbn [app].
    by destruct (concat founds). }
  split; [by apply effects_of_trace; rewrite Heq|].
  rewrite Heq. cbn [fst]. split; [done|].
  split; intros ->; reflexivity.
Qed.

Lemma run_joins_fragments_witness :
  fst (_run (demo_service all_complete ["A"; "B"]) "wing load"
            (demo_tool ["doc.pdf"] ["job-a"]))
  = Return ("A" +:+ newline +:+ "____" +:+ newline +:+ "B").
Proof.
  destruct (run_joins_fragments (demo_service all_complete ["A"; "B"]) "wing load"
              (demo_tool ["doc.pdf"] ["job-a"]) ["job-a"] 7 all_complete)
    as (founds & Hlen & Heff & _ & _ & Hab).
  - split; [by eexists|]. split; reflexivity.
  - intros h pid. reflexivity.
  - intros h id q n v. eexists. reflexivity.
  - reflexivity.
  - apply Hab. vm_compute in Heff.
    destruct founds as [|found [|? ?]]; try discriminate Hlen.
    injection Heff as <-. reflexivity.
Defined.

(** C8.  On a constructed tool with N recorded jobs, when the service
    reports every job complete and the searches do not fail, the invocation
    performs for each job, in order, its status request followed by one
    search request; the N search requests all carry the shared bucket id,
    the query, result count 10 and verbosity 2, and the list [results] the
    loop ends with is the concatenation of the N answers in job order. *)
Theorem run_searches_once_per_job gx q w pids b st :
  ready w pids b → reports gx (trace w) st → search_answers gx (trace w) →
  (∀ pid, pid ∈ pids → st pid = "complete") →
  ∃ founds,
    length founds = length pids ∧
    effects_of (_run gx q) w
    = concat (zip_with (λ pid found, [EvStatus pid (Return "complete");
                                      EvSearch b q 10 2 (Return found)]) pids founds) ∧
    searches (effects_of (_run gx q) w) = replicate (length pids) (b, q, 10, 2) ∧
    fst (_run_for gx q pids [] w) = Return (inr (concat founds)).
Proof.
  intros (Hc & Hb & Hp) Hst Hsearch Hall.
  destruct (run_for_all_complete gx q b st pids [] w Hc Hb Hst Hsearch)
    as (founds & Hlen & Hrun); [by apply Forall_forall|].
  exists founds. split; [done|].
  assert (effects_of (_run gx q) w = rounds b q pids founds) as Heff.
  { apply effects_of_trace. by rewrite (run_unfold gx q w pids Hp), Hrun. }
  rewrite Heff. split; [done|]. split; [by apply searches_rounds|].
  by rewrite Hrun.
Qed.

Lemma run_searches_once_per_job_witness :
  searches (effects_of (_run (demo_service all_complete ["A"; "B"]) "wing load")
                       (demo_tool ["a.pdf"; "b.pdf"] ["job-a"; "job-b"]))
  = [(7, "wing load", 10, 2); (7, "wing load", 10, 2)].
Proof.
  destruct (run_searches_once_per_job (demo_service all_complete ["A"; "B"]) "wing load"
              (demo_tool ["a.pdf"; "b.pdf"] ["job-a"; "job-b"]) ["job-a"; "job-b"] 7
              all_complete)
    as (founds & _ & _ & Hsearches & _).
  - split; [by eexists|]. split; reflexivity.
  - intros h pid. reflexivity.
  - intros h id q n v. eexists. reflexivity.
  - reflexivity.
  - exact Hsearches.
Defined.

(** C6, as the code has it.  On every invocation of [_run] on a
    constructed tool the trace follows [loop_trace]: statuses are requested
    in the recorded order, for an initial segment of the jobs, stopping at
    the first job that is not complete; the search for a job is issued right
    after that job was found complete.  So when a search is issued, exactly
    the jobs up to the current one have been checked, and all of them were
    found complete; later jobs have not been checked yet. *)
Theorem run_checks_job_before_its_search gx q w pids b :
  ready w pids b →
  let delta := effects_of (_run gx q) w in
  loop_trace b q pids delta ∧
  map fst (checks delta) `prefix_of` pids ∧
  ∀ pre id q' n v r post, delta = pre ++ EvSearch id q' n v r :: post →
    (id, q', n, v) = (b, q, 10, 2) ∧
    (length (searches pre) < length pids)%nat ∧
    checks pre = map (λ pid, (pid, Return "complete"))
                     (take (S (length (searches pre))) pids).
Proof.
  intros (Hc & Hb & Hp) delta.
  destruct (run_for_trace gx q b pids [] w Hc Hb) as (out & d & Hrun & Hd).
  assert (delta = d) as ->.
  { apply effects_of_trace. rewrite (run_unfold gx q w pids Hp), Hrun.
    by destruct out as [[m|r]|e]. }
  split; [done|]. split; [by apply (loop_trace_checks b q)|].
  intros pre id q' n v r post Heq.
  exact (loop_trace_search b q pids d Hd pre id q' n v r post Heq).
Qed.

Lemma run_checks_job_before_its_search_witness :
  loop_trace 7 "wing load" ["job-a"; "job-b"; "job-c"]
    (effects_of (_run (demo_service second_pending ["A"; "B"]) "wing load")
                (demo_tool ["a.pdf"; "b.pdf"; "c.pdf"] ["job-a"; "job-b"; "job-c"])).
Proof.
  apply (run_checks_job_before_its_search _ _ _ _ 7).
  split; [by eexists|]. split; reflexivity.
Defined.

(** C6 as stated fails with two complete jobs: the first search is issued
    before the status of the second job is requested. *)
Lemma run_searches_before_all_checked :
  ¬ checks_all_before_search ["job-a"; "job-b"]
      (effects_of (_run (demo_service all_complete ["A"; "B"]) "wing load")
                  (demo_tool ["a.pdf"; "b.pdf"] ["job-a"; "job-b"])).
Proof.
  intros [_ Hbefore].
  specialize (Hbefore [EvStatus "job-a" (Return "complete")] 7 "wing load" 10 2
                (Return ["A"; "B"])
                [EvStatus "job-b" (Return "complete");
                 EvSearch 7 "wing load" 10 2 (Return ["A"; "B"])]
                eq_refl "job-b").
  assert ("job-b" ∈ ["job-a"; "job-b"]) as Hin
    by (apply elem_of_cons; right; apply elem_of_cons; by left).
  apply Hbefore in Hin. apply elem_of_cons in Hin as [Heq|Hin].
  - discriminate Heq.
  - by apply elem_of_nil in Hin.
Qed.

(** ** Construction *)

(** C4.  When the bucket could be created and the input file exists, the
    constructor enters [split_pdf] if and only if the byte size of the file
    is strictly greater than 10485760.  At that size or below, the list of
    parts is the input path alone and no file is written; above it, a
    readable PDF is split and every part holds between 1 and 10 pages. *)
Theorem init_splits_above_threshold gx pdf_size path f w b :
  fs w !! path = Some f →
  buckets_create gx (trace w) "agentic_rag" = Return b →
  let w' := snd (__init__ gx pdf_size path w) in
  (opened path (effects_of (__init__ gx pdf_size path) w) ↔ 10485760 < file_size f) ∧
  (file_size f ≤ 10485760 → pdf_parts (self w') = Some [path] ∧ fs w' = fs w) ∧
  (10485760 < file_size f → ∀ doc, file_pages f = Some doc →
     ∃ parts,
       pdf_parts (self w') = Some parts ∧
       Z.of_nat (length parts) = ceil_div (Z.of_nat (length doc)) 10 ∧
       ∀ part, part ∈ parts →
         ∃ g pages, fs w' !! part = Some g ∧ file_pages g = Some pages ∧
                    1 ≤ Z.of_nat (length pages) ≤ 10).
Proof.
  intros Hf Hr w'. unfold w'. change 10485760 with size_limit.
  destruct (init_existing_file gx pdf_size path f w b Hf Hr)
    as (parts & delta & Hdelta & _ &
        [(Hsize & -> & Hparts & Hfs & Heff)
        |[(Hsize & Hdoc & -> & e & r & Hout & Heff)
         |(doc & Hsize & Hdoc & -> & Hparts & Hfs & Heff)]]); rewrite Heff.
  - split; [|split; [done|lia]]. split; [|lia].
    intros [r Hin]. exfalso.
    apply elem_of_cons in Hin as [?|Hin]; [done|].
    apply elem_of_cons in Hin as [?|Hin]; [done|].
    apply (not_opened_ingest path delta Hdelta). by exists r.
  - split; [|split; [lia|by rewrite Hdoc]]. split; [done|].
    intros _. exists r. rewrite !elem_of_cons. auto 6.
  - split; [|split; [lia|]].
    + split; [done|]. intros _. exists (Return doc).
      unfold split_effects. cbn [app]. rewrite !elem_of_cons. auto 6.
    + intros _ doc' Hdoc'. rewrite Hdoc in Hdoc'. injection Hdoc' as <-.
      eexists. split; [exact Hparts|].
      split; [by rewrite length_map, range_list_length by lia|].
      intros part (i & -> & Hi)%list_elem_of_fmap.
      exists (part_file pdf_size doc 10 i), (window doc 10 i). rewrite Hfs.
      split; [apply written_lookup; [apply range_list_NoDup; lia|done]|].
      split; [done|].
      pose proof (range_list_bounds (Z.of_nat (length doc)) 10 ltac:(lia) ltac:(lia)) as Hb.
      rewrite Forall_forall in Hb. specialize (Hb i Hi).
      rewrite window_length by lia. lia.
Qed.

Lemma init_splits_above_threshold_witness :
  pdf_parts (self (snd (__init__ (demo_service all_complete []) demo_size "doc.pdf"
                          (demo_world "doc.pdf" (mkFile 10485760 (Some (demo_pages 12)))))))
  = Some ["doc.pdf"] ∧
  opened "doc.pdf"
    (effects_of (__init__ (demo_service all_complete []) demo_size "doc.pdf")
                (demo_world "doc.pdf" (mkFile 10485761 (Some (demo_pages 12))))).
Proof.
  split.
  - apply (init_splits_above_threshold (demo_service all_complete []) demo_size "doc.pdf"
             (mkFile 10485760 (Some (demo_pages 12))) _ 7).
    + vm_compute. reflexivity.
    + reflexivity.
    + simpl. lia.
  - apply (init_splits_above_threshold (demo_service all_complete []) demo_size "doc.pdf"
             (mkFile 10485761 (Some (demo_pages 12))) _ 7).
    + vm_compute. reflexivity.
    + reflexivity.
    + simpl. lia.
Defined.

(** C5.  After a construction that returns normally, the list of parts
    and the list of job identifiers have the same length, the uploads of the
    construction are those of the parts, in order, and upload i was answered
    with job identifier i; none of the methods [_run], [_upload_document]
    and [_create_bucket] changes an attribute of the instance afterwards, so
    both lists stay as they are. *)
Theorem init_parts_and_jobs_aligned gx pdf_size path w w' :
  __init__ gx pdf_size path w = (Return tt, w') →
  ∃ b parts pids,
    bucket_id (self w') = Some b ∧
    pdf_parts (self w') = Some parts ∧
    process_ids (self w') = Some pids ∧
    length parts = length pids ∧
    ingested (effects_of (__init__ gx pdf_size path) w)
    = zip_with (λ part pid,
                  (mkDocument b (basename part) part "pdf" [("key", "value")], Return pid))
               parts pids ∧
    ∀ w2,
      (∀ q, self (snd (_run gx q w2)) = self w2) ∧
      (∀ part, self (snd (_upload_document gx part w2)) = self w2) ∧
      self (snd (_create_bucket gx w2)) = self w2.
Proof.
  intros Hinit.
  destruct (buckets_create gx (trace w) "agentic_rag") as [b|e] eqn:Hr; cycle 1.
  { by rewrite (init_bucket_raises gx pdf_size path w e Hr) in Hinit. }
  destruct (fs w !! path) as [f|] eqn:Hf; cycle 1.
  { rewrite (init_bucket_created gx pdf_size path w b Hr) in Hinit.
    by rewrite (bind_Raise _ _ _ _ _ (check_missing pdf_size path (created path b w) Hf))
      in Hinit. }
  destruct (init_existing_file gx pdf_size path f w b Hf Hr)
    as (parts & delta & Hdelta & Hok & Hcases).
  rewrite Hinit in Hok, Hcases. cbn [fst snd] in Hok, Hcases.
  destruct (Hok eq_refl) as (pids & Hpids & Hparts & Hb & Hlen & ->).
  exists b, parts, pids. repeat (split; [done|]). split.
  - fold (document b).
    destruct Hcases as [(_ & _ & _ & _ & ->)
                       |[(_ & _ & _ & ? & ? & ? & _)|(doc & _ & _ & _ & _ & _ & ->)]];
      [|done|].
    + cbn. apply ingested_uploads.
    + unfold split_effects, ingested. cbn. rewrite omap_app.
      fold (ingested (saves doc 10 (range_list 0 (Z.of_nat (length doc)) 10))).
      rewrite ingested_saves. apply ingested_uploads.
  - intros w2. split; [|split].
    + intros q. by destruct (run_only_logs gx q w2) as [d ->].
    + intros part. by destruct (upload_document_only_logs gx part w2) as [d ->].
    + by destruct (create_bucket_only_logs gx w2) as [d ->].
Qed.

Lemma init_parts_and_jobs_aligned_witness :
  ∃ w',
    __init__ (demo_service all_complete []) demo_size "doc.pdf"
             (demo_world "doc.pdf" (mkFile 10485761 (Some (demo_pages 12))))
    = (Return tt, w') ∧
    pdf_parts (self w') = Some ["split_0.pdf"; "split_10.pdf"] ∧
    ∃ b parts pids,
      bucket_id (self w') = Some b ∧ pdf_parts (self w') = Some parts ∧
      process_ids (self w') = Some pids ∧ length parts = length pids.
Proof.
  eexists. split; [vm_compute; reflexivity|]. split; [reflexivity|].
  destruct (init_parts_and_jobs_aligned (demo_service all_complete []) demo_size "doc.pdf"
              (demo_world "doc.pdf" (mkFile 10485761 (Some (demo_pages 12)))) _
              ltac:(vm_compute; reflexivity))
    as (b & parts & pids & Hb & Hparts & Hpids & Hlen & _).
  exists b, parts, pids. repeat (split; [assumption|]). assumption.
Defined.

(** C10.  When the input path does not exist, the constructor fails, and
    the first effect it performed is the request to create the bucket
    "agentic_rag"; the size of the file is looked up only after it.  When
    that request succeeded, the constructor fails with the file-not-found
    error of the size lookup, leaving the bucket created and its identifier
    stored, with no part and no job recorded. *)
Theorem init_missing_file_after_bucket gx pdf_size path w :
  fs w !! path = None →
  let r := buckets_create gx (trace w) "agentic_rag" in
  let out := __init__ gx pdf_size path w in
  (∃ e, fst out = Raise e) ∧
  (∃ rest, effects_of (__init__ gx pdf_size path) w
           = EvBucketsCreate "agentic_rag" r :: rest) ∧
  ∀ b, r = Return b →
    fst out = Raise (FileNotFoundError path) ∧
    effects_of (__init__ gx pdf_size path) w
    = [EvBucketsCreate "agentic_rag" (Return b);
       EvGetSize path (Raise (FileNotFoundError path))] ∧
    bucket_id (self (snd out)) = Some b ∧
    pdf_parts (self (snd out)) = None ∧
    process_ids (self (snd out)) = None.
Proof.
  intros Hf r out. unfold out, effects_of.
  destruct r as [b|e] eqn:Hr; unfold r in Hr.
  - rewrite (init_bucket_created gx pdf_size path w b Hr).
    rewrite (bind_Raise _ _ _ _ _ (check_missing pdf_size path (created path b w) Hf)).
    cbn [fst snd trace self with_trace created bucket_id pdf_parts process_ids].
    rewrite <- !app_assoc, drop_app_length. cbn [app].
    split; [by eexists|]. split; [by eexists|].
    intros b' [= <-]. done.
  - rewrite (init_bucket_raises gx pdf_size path w e Hr).
    cbn [fst snd trace]. rewrite drop_app_length.
    split; [by eexists|]. split; [by eexists|]. by intros b'.
Qed.

Lemma init_missing_file_after_bucket_witness :
  effects_of (__init__ (demo_service all_complete []) demo_size "absent.pdf")
             (demo_world "doc.pdf" (mkFile 10485761 (Some (demo_pages 12))))
  = [EvBucketsCreate "agentic_rag" (Return 7);
     EvGetSize "absent.pdf" (Raise (FileNotFoundError "absent.pdf"))].
Proof.
  apply (init_missing_file_after_bucket (demo_service all_complete []) demo_size "absent.pdf"
           (demo_world "doc.pdf" (mkFile 10485761 (Some (demo_pages 12))))).
  - vm_compute. reflexivity.
  - reflexivity.
Defined.

(** * Further properties *)

(** ** Observations a computation leaves as they are *)

Section preserves.
Context {X : Type} (f : World → X).
Hypothesis f_trace :
  ∀ o env files t t', f (mkWorld o env files t) = f (mkWorld o env files t').

Lemma preserves_ret {A} (a : A) : preserves f (ret a).
Proof. by intros w. Qed.

Lemma preserves_raise {A} e : preserves f (@raise A e).
Proof. by intros w. Qed.

Lemma preserves_lift {A} (o : Outcome A) : preserves f (lift o).
Proof. by intros w. Qed.

Lemma preserves_getattr {A} name (field : DocumentSearchTool → option A) :
  preserves f (getattr name field).
Proof. intros w. unfold getattr. by destruct (field (self w)). Qed.

Lemma preserves_bind {A B} (m : M A) (k : A → M B) :
  preserves f m → (∀ a, preserves f (k a)) → preserves f (bind m k).
Proof.
  intros Hm Hk w. unfold bind. specialize (Hm w).
  destruct (m w) as [[a|e] w1]; simpl in Hm; [|done].
  by rewrite (Hk a w1).
Qed.

Lemma preserves_perform {A} (ask : World → Outcome A) ev : preserves f (perform ask ev).
Proof.
  intros w. rewrite perform_run. destruct w. unfold with_trace. simpl. apply f_trace.
Qed.

Lemma preserves_for_each {A B} (body : B → A → M B) l :
  (∀ acc x, preserves f (body acc x)) → ∀ acc, preserves f (for_each body l acc).
Proof.
  intros Hbody. induction l as [|x l IH]; intros acc; cbn [for_each].
  - apply preserves_ret.
  - apply preserves_bind; [apply Hbody|intros acc'; apply IH].
Qed.

End preserves.

Section split_frame.
Context {X : Type} (f : World → X).
Hypothesis f_trace :
  ∀ o env files t t', f (mkWorld o env files t) = f (mkWorld o env files t').
Hypothesis f_files :
  ∀ o env files files' t, f (mkWorld o env files t) = f (mkWorld o env files' t).

Lemma preserves_save pdf_size part_doc path : preserves f (save pdf_size part_doc path).
Proof.
  intros w. unfold save. destruct part_doc; [done|].
  destruct w as [o env files t]. simpl.
  rewrite (f_files _ _ _ files). apply f_trace.
Qed.

Lemma preserves_split_pdf pdf_size path W : preserves f (split_pdf pdf_size path W).
Proof.
  unfold split_pdf.
  apply preserves_bind; [by apply preserves_perform|intros doc].
  apply preserves_bind; [apply preserves_lift|intros starts].
  apply preserves_for_each. intros acc i. unfold split_body.
  apply preserves_bind.
  { apply preserves_for_each. intros part_doc j. apply preserves_lift. }
  intros part_doc.
  apply preserves_bind; [apply preserves_save|intros _; apply preserves_ret].
Qed.

End split_frame.

Section only_performs.
Variable P : Event → Prop.

Lemma only_performs_ret {A} (a : A) : only_performs P (ret a).
Proof. intros w. exists []. by rewrite with_trace_nil. Qed.

Lemma only_performs_getattr {A} name (field : DocumentSearchTool → option A) :
  only_performs P (getattr name field).
Proof.
  intros w. exists []. rewrite with_trace_nil. unfold getattr.
  by destruct (field (self w)).
Qed.

Lemma only_performs_perform {A} (ask : World → Outcome A) ev :
  (∀ r, P (ev r)) → only_performs P (perform ask ev).
Proof.
  intros Hev w. eexists. rewrite perform_run. split; [done|]. by repeat constructor.
Qed.

Lemma only_performs_bind {A B} (m : M A) (k : A → M B) :
  only_performs P m → (∀ a, only_performs P (k a)) → only_performs P (bind m k).
Proof.
  intros Hm Hk w. destruct (Hm w) as (d1 & H1 & HP1). unfold bind.
  destruct (m w) as [[a|e] w1]; simpl in H1; subst w1.
  - destruct (Hk a (with_trace w d1)) as (d2 & H2 & HP2).
    exists (d1 ++ d2). rewrite H2, with_trace_app. split; [done|].
    apply Forall_app. by split.
  - by exists d1.
Qed.

End only_performs.

(** ** split_pdf on every input *)

(** The windows of a document, taken in order, make up the document. *)
Lemma windows_cover (W : nat) : ∀ (n : nat) (doc : list Page),
  (0 < W)%nat → (length doc ≤ n * W)%nat →
  concat (map (λ k : nat, take W (drop (k * W) doc)) (seq 0 n)) = doc.
Proof.
  induction n as [|n IH]; intros doc HW Hlen.
  - simpl in *. destruct doc; [done|simpl in Hlen; lia].
  - cbn [seq map concat]. rewrite <- fmap_S_seq.
    change (map ?g (S <$> ?l)) with (map g (map S l)). rewrite map_map.
    rewrite (map_ext _ (λ k : nat, take W (drop (k * W) (drop W doc)))); cycle 1.
    { intros k. rewrite drop_drop. by do 2 f_equal. }
    rewrite IH; [|done|rewrite length_drop; lia].
    simpl. apply take_drop.
Qed.

Lemma windows_of_range doc W :
  0 < W →
  concat (map (window doc W) (range_list 0 (Z.of_nat (length doc)) W)) = doc.
Proof.
  intros HW. unfold range_list. rewrite range_length_pos by lia. rewrite map_map.
  pose proof (ceil_div_spec (Z.of_nat (length doc)) W HW) as Hc.
  rewrite (map_ext _ (λ k : nat, take (Z.to_nat W) (drop (k * Z.to_nat W) doc))); cycle 1.
  { intros k. unfold window. do 2 f_equal. lia. }
  apply windows_cover; [lia|]. nia.
Qed.

(** X1.  For a readable PDF and a window size W > 0, the pages of the files
    [split_pdf] wrote, read in the order of the returned paths, are the
    pages of the document: no page is lost, repeated or reordered. *)
Theorem split_pdf_parts_make_up_document pdf_size path f doc W w :
  fs w !! path = Some f → file_pages f = Some doc → 0 < W →
  ∃ parts contents w',
    split_pdf pdf_size path W w = (Return parts, w') ∧
    Forall2 (λ part pages, ∃ g, fs w' !! part = Some g ∧ file_pages g = Some pages)
            parts contents ∧
    concat contents = doc.
Proof.
  intros Hf Hdoc HW.
  exists (map part_name (range_list 0 (Z.of_nat (length doc)) W)),
         (map (window doc W) (range_list 0 (Z.of_nat (length doc)) W)).
  eexists. split; [by apply (split_pdf_run _ _ f doc)|].
  split; [|by apply windows_of_range].
  apply Forall2_fmap, Forall_Forall2_diag, Forall_forall. intros i Hi.
  exists (part_file pdf_size doc W i). split; [|done].
  apply written_lookup; [apply range_list_NoDup; lia|done].
Qed.

Lemma split_pdf_parts_make_up_document_witness :
  ∃ parts contents w',
    split_pdf demo_size "big.pdf" 10
      (demo_world "big.pdf" (mkFile 20000000 (Some (demo_pages 25))))
    = (Return parts, w') ∧
    concat contents = demo_pages 25.
Proof.
  destruct (split_pdf_parts_make_up_document demo_size "big.pdf"
              (mkFile 20000000 (Some (demo_pages 25))) (demo_pages 25) 10
              (demo_world "big.pdf" (mkFile 20000000 (Some (demo_pages 25)))))
    as (parts & contents & w' & Hrun & _ & Hcat).
  - vm_compute. reflexivity.
  - reflexivity.
  - lia.
  - exists parts, contents, w'. split; [exact Hrun|exact Hcat].
Defined.

(** X2.  With a window size that is not positive, [split_pdf] opens the
    document and writes no file: size 0 raises the ValueError of [range],
    a negative size returns the empty list. *)
Theorem split_pdf_nonpositive_window pdf_size path f doc W w :
  fs w !! path = Some f → file_pages f = Some doc → W ≤ 0 →
  snd (split_pdf pdf_size path W w) = with_trace w [EvOpen path (Return doc)] ∧
  (W = 0 →
   fst (split_pdf pdf_size path W w)
   = Raise (ValueError "range() arg 3 must not be zero")) ∧
  (W < 0 → fst (split_pdf pdf_size path W w) = Return []).
Proof.
  intros Hf Hdoc HW.
  pose proof (open_file_pdf path _ f doc Hf Hdoc) as Hopen.
  destruct (decide (W = 0)) as [->|Hne].
  - rewrite (split_pdf_zero _ _ _ _ Hopen). split; [done|]. split; [done|lia].
  - rewrite (split_pdf_negative _ _ _ _ _ Hopen) by lia. split; [done|].
    split; [done|done].
Qed.

Lemma split_pdf_nonpositive_window_witness :
  fst (split_pdf demo_size "big.pdf" 0
         (demo_world "big.pdf" (mkFile 20000000 (Some (demo_pages 25)))))
  = Raise (ValueError "range() arg 3 must not be zero") ∧
  fst (split_pdf demo_size "big.pdf" (-3)
         (demo_world "big.pdf" (mkFile 20000000 (Some (demo_pages 25)))))
  = Return [].
Proof.
  split.
  - apply (split_pdf_nonpositive_window demo_size "big.pdf"
             (mkFile 20000000 (Some (demo_pages 25))) (demo_pages 25) 0
             (demo_world "big.pdf" (mkFile 20000000 (Some (demo_pages 25)))));
      [vm_compute; reflexivity|reflexivity|lia|reflexivity].
  - apply (split_pdf_nonpositive_window demo_size "big.pdf"
             (mkFile 20000000 (Some (demo_pages 25))) (demo_pages 25) (-3)
             (demo_world "big.pdf" (mkFile 20000000 (Some (demo_pages 25)))));
      [vm_compute; reflexivity|reflexivity|lia|lia].
Defined.

(** X3.  When the input path does not exist, or names a file that PyMuPDF
    cannot open (an empty or damaged file), [split_pdf] raises the error of
    [pymupdf.open] (file not found, or file data error) for every window
    size, and does nothing but the failed attempt to open the file. *)
Theorem split_pdf_unreadable_input pdf_size path W w :
  (∀ f, fs w !! path = Some f → file_content f = Unopenable) →
  ∃ e,
    split_pdf pdf_size path W w = (Raise e, with_trace w [EvOpen path (Raise e)]) ∧
    (fs w !! path = None → e = FileNotFoundError path) ∧
    (is_Some (fs w !! path) → e = FileDataError path).
Proof.
  intros Hbad. destruct (fs w !! path) as [f|] eqn:Hf.
  - exists (FileDataError path). split; [|split; [done|done]].
    apply split_pdf_open_raises. rewrite Hf. unfold open_file.
    by rewrite (Hbad f eq_refl).
  - exists (FileNotFoundError path). split; [|split; [done|by intros [? ?]]].
    apply split_pdf_open_raises. by rewrite Hf.
Qed.

Lemma split_pdf_unreadable_input_witness :
  split_pdf demo_size "absent.pdf" 10
    (demo_world "damaged.pdf" (MkFile 12 Unopenable))
  = (Raise (FileNotFoundError "absent.pdf"),
     with_trace (demo_world "damaged.pdf" (MkFile 12 Unopenable))
                [EvOpen "absent.pdf" (Raise (FileNotFoundError "absent.pdf"))]) ∧
  split_pdf demo_size "damaged.pdf" 10
    (demo_world "damaged.pdf" (MkFile 12 Unopenable))
  = (Raise (FileDataError "damaged.pdf"),
     with_trace (demo_world "damaged.pdf" (MkFile 12 Unopenable))
                [EvOpen "damaged.pdf" (Raise (FileDataError "damaged.pdf"))]).
Proof.
  split.
  - destruct (split_pdf_unreadable_input demo_size "absent.pdf" 10
                (demo_world "damaged.pdf" (MkFile 12 Unopenable)))
      as (e & Hrun & He & _).
    + intros f Hf. vm_compute in Hf. discriminate Hf.
    + rewrite Hrun, He; [reflexivity|vm_compute; reflexivity].
  - destruct (split_pdf_unreadable_input demo_size "damaged.pdf" 10
                (demo_world "damaged.pdf" (MkFile 12 Unopenable)))
      as (e & Hrun & _ & He).
    + intros f Hf. vm_compute in Hf. injection Hf as <-. reflexivity.
    + rewrite Hrun, He; [reflexivity|vm_compute; eexists; reflexivity].
Defined.

(** X17.  When the input is a file that PyMuPDF opens but that is no PDF (a
    text file, an image), [split_pdf] with a positive window size opens it
    and raises the RuntimeError of [insert_pdf] at the first page to be
    copied: opening the file is its only effect, no part is written and the
    files are what they were. *)
Theorem split_pdf_input_not_a_pdf pdf_size path f page more W w :
  fs w !! path = Some f → file_content f = OtherFormat page more → 0 < W →
  fst (split_pdf pdf_size path W w)
  = Raise (RuntimeError "source or target not a PDF") ∧
  effects_of (split_pdf pdf_size path W) w = [EvOpen path (Return (page :: more))] ∧
  fs (snd (split_pdf pdf_size path W w)) = fs w.
Proof.
  intros Hf Hcontent HW.
  pose proof (split_pdf_not_pdf pdf_size path f page more W w Hf Hcontent HW) as Hrun.
  split; [by rewrite Hrun|]. split; [|by rewrite Hrun].
  apply effects_of_trace. by rewrite Hrun.
Qed.

Lemma split_pdf_input_not_a_pdf_witness :
  fst (split_pdf demo_size "notes.txt" 10
         (demo_world "notes.txt" (MkFile 12 (OtherFormat "remember the manual" []))))
  = Raise (RuntimeError "source or target not a PDF") ∧
  effects_of (split_pdf demo_size "notes.txt" 10)
             (demo_world "notes.txt" (MkFile 12 (OtherFormat "remember the manual" [])))
  = [EvOpen "notes.txt" (Return ["remember the manual"])].
Proof.
  destruct (split_pdf_input_not_a_pdf demo_size "notes.txt"
              (MkFile 12 (OtherFormat "remember the manual" []))
              "remember the manual" [] 10
              (demo_world "notes.txt" (MkFile 12 (OtherFormat "remember the manual" []))))
    as (Hout & Heff & _).
  - vm_compute. reflexivity.
  - reflexivity.
  - lia.
  - split; [exact Hout|exact Heff].
Defined.

(** X4.  Whatever its input, [split_pdf] changes neither the instance nor
    the environment, and every file whose name is not split_i.pdf for some
    i >= 0 is after the call what it was before. *)
Theorem split_pdf_touches_only_parts pdf_size path W w :
  self (snd (split_pdf pdf_size path W w)) = self w ∧
  environ (snd (split_pdf pdf_size path W w)) = environ w ∧
  ∀ name,
    (∀ i, 0 ≤ i → name ≠ "split_" +:+ pretty i +:+ ".pdf") →
    fs (snd (split_pdf pdf_size path W w)) !! name = fs w !! name.
Proof.
  split; [by apply (preserves_split_pdf self)|].
  split; [by apply (preserves_split_pdf environ)|].
  intros name Hname.
  destruct (open_file path (fs w !! path)) as [d|e] eqn:Hopen; cycle 1.
  { by rewrite (split_pdf_open_raises _ _ _ _ e). }
  destruct (Z.lt_trichotomy W 0) as [Hneg|[->|Hpos]].
  { by rewrite (split_pdf_negative _ _ d). }
  { by rewrite (split_pdf_zero _ _ d). }
  destruct (fs w !! path) as [f|] eqn:Hf; [|done].
  destruct (file_content f) as [doc|page more|] eqn:Hcontent.
  - rewrite (split_pdf_run _ _ f doc); [|done|by unfold file_pages; rewrite Hcontent|done].
    cbn [snd fs].
    apply written_other. intros i Hi Heq. apply (Hname i); [|done].
    pose proof (range_list_bounds (Z.of_nat (length doc)) W Hpos ltac:(lia)) as Hb.
    rewrite Forall_forall in Hb. apply Hb in Hi. lia.
  - by rewrite (split_pdf_not_pdf _ _ f page more).
  - unfold open_file in Hopen. by rewrite Hcontent in Hopen.
Qed.

(** ** How [_run] ends *)

Lemma rounds_cons b q pid pids found founds :
  rounds b q (pid :: pids) (found :: founds)
  = round b q pid found ++ rounds b q pids founds.
Proof. reflexivity. Qed.

Lemma loop_ending_round b q pid rest results found delta out :
  loop_ending b q rest (results ++ found) delta out →
  loop_ending b q (pid :: rest) results (round b q pid found ++ delta) out.
Proof.
  intros [founds Hlen|done founds pid' rest' status -> Hlen Hs
         |done founds pid' rest' e -> Hlen|done founds pid' rest' e -> Hlen].
  - rewrite <- rounds_cons, <- app_assoc.
    change (found ++ concat founds) with (concat (found :: founds)).
    constructor. simpl. lia.
  - rewrite app_assoc, <- rounds_cons.
    apply (loop_ends_pending b q _ results (pid :: done) (found :: founds) pid' rest');
      [done|simpl; lia|done].
  - rewrite app_assoc, <- rounds_cons.
    apply (loop_ends_status_failed b q _ results (pid :: done) (found :: founds) pid' rest');
      [done|simpl; lia].
  - rewrite app_assoc, <- rounds_cons.
    apply (loop_ends_search_failed b q _ results (pid :: done) (found :: founds) pid' rest');
      [done|simpl; lia].
Qed.

Section loop_endings.
Variable gx : GroundX.
Variable q : string.

Lemma run_for_ending b pids : ∀ results w,
  is_Some (client (self w)) → bucket_id (self w) = Some b →
  ∃ out delta,
    _run_for gx q pids results w = (out, with_trace w delta) ∧
    loop_ending b q pids results delta out.
Proof.
  induction pids as [|pid rest IH]; intros results w [c Hc] Hb.
  - exists (Return (inr results)), []. rewrite with_trace_nil. split; [done|].
    rewrite <- (app_nil_r results) at 2. by apply (loop_ends_complete b q [] results []).
  - cbn [_run_for].
    erewrite bind_Return by (by apply getattr_run).
    destruct (get_processing_status_by_id gx (trace w) pid) as [status|e] eqn:Hs.
    + erewrite bind_Return by (by rewrite perform_run, Hs).
      case_bool_decide as Hstatus.
      { eexists _, _. split; [reflexivity|].
        by apply (loop_ends_pending b q _ results [] [] pid rest). }
      subst status.
      erewrite bind_Return by (by apply getattr_run).
      erewrite bind_Return by (by apply getattr_run).
      set (w1 := with_trace w [EvStatus pid (Return "complete")]).
      destruct (search_content gx (trace w1) b q 10 2) as [found|e] eqn:Hf.
      * erewrite bind_Return by (by rewrite perform_run, Hf).
        rewrite fold_append.
        destruct (IH (results ++ found)
                     (with_trace w1 [EvSearch b q 10 2 (Return found)]))
          as (out & delta & -> & Hdelta); [by exists c|done|].
        exists out. eexists. unfold w1. rewrite !with_trace_app.
        split; [reflexivity|]. by apply loop_ending_round.
      * erewrite bind_Raise by (by rewrite perform_run, Hf).
        eexists _, _. unfold w1. rewrite with_trace_app.
        split; [reflexivity|].
        by apply (loop_ends_search_failed b q _ results [] [] pid rest).
    + erewrite bind_Raise by (by rewrite perform_run, Hs).
      eexists _, _. split; [reflexivity|].
      by apply (loop_ends_status_failed b q _ results [] [] pid rest).
Qed.

End loop_endings.

(** [_run] hands on what its loop did. *)
Lemma run_of_loop gx q w pids b :
  ready w pids b →
  ∃ out delta,
    loop_ending b q pids [] delta out ∧
    effects_of (_run gx q) w = delta ∧
    fst (_run gx q w)
    = match out with
      | Return (inl message) => Return message
      | Return (inr results) => Return (render results)
      | Raise e => Raise e
      end.
Proof.
  intros (Hc & Hb & Hp).
  destruct (run_for_ending gx q b pids [] w Hc Hb) as (out & delta & Hrun & Hend).
  exists out, delta. split; [done|].
  rewrite (run_unfold gx q w pids Hp). unfold effects_of.
  rewrite (run_unfold gx q w pids Hp), Hrun.
  destruct out as [[m|r]|e]; cbn [fst snd trace with_trace];
    by rewrite drop_app_length.
Qed.

(** X5.  On a constructed tool, and as long as every search result the
    service returns carries a text, an invocation of [_run] ends in one of
    four ways, however the service answers and fails: every job was found
    complete and searched, and the joined fragments (or the no-results
    sentinel) are returned; or after some complete jobs a job is not
    complete and the still-processing sentinel is returned; or the status
    request of a job fails; or the search after a complete job fails.  In
    the last two cases the error of the request is raised. *)
Theorem run_ends_in_one_of_four_ways gx q w pids b :
  ready w pids b →
  run_ending b q pids (effects_of (_run gx q) w) (fst (_run gx q w)).
Proof.
  intros Hready.
  destruct (run_of_loop gx q w pids b Hready) as (out & delta & Hend & -> & ->).
  destruct Hend as [founds Hlen|done founds pid rest status Hp' Hlen Hs
                   |done founds pid rest e Hp' Hlen|done founds pid rest e Hp' Hlen].
  - by apply (ends_complete b q pids founds).
  - by apply (ends_pending b q pids done founds pid rest).
  - by apply (ends_status_failed b q pids done founds pid rest).
  - by apply (ends_search_failed b q pids done founds pid rest).
Qed.

Lemma run_ends_in_one_of_four_ways_witness :
  run_ending 7 "wing load" ["job-a"; "job-b"; "job-c"]
    (effects_of (_run (demo_service second_pending ["A"; "B"]) "wing load")
                (demo_tool ["a.pdf"; "b.pdf"; "c.pdf"] ["job-a"; "job-b"; "job-c"]))
    (fst (_run (demo_service second_pending ["A"; "B"]) "wing load"
               (demo_tool ["a.pdf"; "b.pdf"; "c.pdf"] ["job-a"; "job-b"; "job-c"]))).
Proof.
  apply run_ends_in_one_of_four_ways.
  split; [by eexists|]. split; reflexivity.
Defined.

Lemma rounds_succeeded b q pids : ∀ founds, Forall succeeded (rounds b q pids founds).
Proof.
  induction pids as [|pid pids IH]; intros [|found founds]; [constructor..|].
  rewrite rounds_cons. apply Forall_app. split; [|apply IH].
  by repeat constructor.
Qed.

(** X6.  On a constructed tool, and as long as every search result the
    service returns carries a text, [_run] catches no error of the service
    and raises no other: when it raises e, the last request of the
    invocation was answered with e and every earlier request had succeeded;
    when it returns, every request of the invocation had succeeded. *)
Theorem run_raises_what_a_request_raised gx q w pids b :
  ready w pids b →
  (∀ e, fst (_run gx q w) = Raise e →
     ∃ pre ev, effects_of (_run gx q) w = pre ++ [ev] ∧
               Forall succeeded pre ∧ failed_with e ev) ∧
  (∀ s, fst (_run gx q w) = Return s → Forall succeeded (effects_of (_run gx q) w)).
Proof.
  intros Hready.
  destruct (run_of_loop gx q w pids b Hready) as (out & delta & Hend & -> & ->).
  destruct Hend as [founds Hlen|done founds pid rest status Hp Hlen Hs
                   |done founds pid rest e Hp Hlen|done founds pid rest e Hp Hlen].
  - split; [done|]. intros s _. apply rounds_succeeded.
  - split; [done|]. intros s _. apply Forall_app. split; [apply rounds_succeeded|].
    by repeat constructor.
  - split; [|done]. intros e' [= <-]. eexists _, _. split; [reflexivity|].
    split; [apply rounds_succeeded|done].
  - split; [|done]. intros e' [= <-].
    exists (rounds b q done founds ++ [EvStatus pid (Return "complete")]),
           (EvSearch b q 10 2 (Raise e)).
    split; [by rewrite <- app_assoc|]. split; [|done].
    apply Forall_app. split; [apply rounds_succeeded|].
    by repeat constructor.
Qed.

Lemma run_raises_what_a_request_raised_witness :
  Forall succeeded
    (effects_of (_run (demo_service second_pending ["A"; "B"]) "wing load")
                (demo_tool ["a.pdf"; "b.pdf"; "c.pdf"] ["job-a"; "job-b"; "job-c"])).
Proof.
  destruct (run_raises_what_a_request_raised
              (demo_service second_pending ["A"; "B"]) "wing load"
              (demo_tool ["a.pdf"; "b.pdf"; "c.pdf"] ["job-a"; "job-b"; "job-c"])
              ["job-a"; "job-b"; "job-c"] 7) as [_ Hreturns].
  - split; [by eexists|]. split; reflexivity.
  - apply (Hreturns "Document is still being processed..."). vm_compute. reflexivity.
Defined.

Lemma run_for_only_queries gx q pids :
  ∀ results, only_performs is_query_request (_run_for gx q pids results).
Proof.
  induction pids as [|pid rest IH]; intros results; cbn [_run_for].
  - apply only_performs_ret.
  - apply only_performs_bind; [apply only_performs_getattr|intros _].
    apply only_performs_bind; [by apply only_performs_perform|intros status].
    case_bool_decide; [apply only_performs_ret|].
    apply only_performs_bind; [apply only_performs_getattr|intros _].
    apply only_performs_bind; [apply only_performs_getattr|intros b].
    apply only_performs_bind; [by apply only_performs_perform|intros found].
    apply IH.
Qed.

(** X7.  In every world, also on an instance without attributes, [_run]
    changes nothing but the trace, and all it adds to the trace are status
    and search requests: it writes no file and sets no attribute. *)
Theorem run_only_asks_the_service gx q w :
  ∃ delta,
    snd (_run gx q w) = mkWorld (self w) (environ w) (fs w) (trace w ++ delta) ∧
    Forall is_query_request delta.
Proof.
  revert w. change (only_performs is_query_request (_run gx q)). unfold _run.
  apply only_performs_bind; [apply only_performs_getattr|intros pids].
  apply only_performs_bind; [apply run_for_only_queries|intros [message|results]];
    apply only_performs_ret.
Qed.

(** The first of two invocations leaves a tool on which the second runs. *)
Lemma ready_with_trace w pids b delta :
  ready w pids b → ready (with_trace w delta) pids b.
Proof. by intros (? & ? & ?). Qed.

Lemma run_all_complete gx q w pids b st :
  ready w pids b → reports gx (trace w) st → search_answers gx (trace w) →
  Forall (λ pid, st pid = "complete") pids →
  ∃ founds,
    length founds = length pids ∧
    _run gx q w = (Return (render (concat founds)), with_trace w (rounds b q pids founds)).
Proof.
  intros (Hc & Hb & Hp) Hst Hsearch Hall.
  destruct (run_for_all_complete gx q b st pids [] w Hc Hb Hst Hsearch Hall)
    as (founds & Hlen & Hrun).
  exists founds. split; [done|]. by rewrite (run_unfold gx q w pids Hp), Hrun.
Qed.

(** X8.  Nothing is cached between invocations: with all N jobs complete,
    two invocations of [_run] in a row perform the N rounds of status and
    search requests twice, 2N search requests in all. *)
Theorem run_twice_asks_twice gx q w pids b st :
  ready w pids b → reports gx (trace w) st → search_answers gx (trace w) →
  (∀ pid, pid ∈ pids → st pid = "complete") →
  ∃ first second,
    length first = length pids ∧ length second = length pids ∧
    effects_of (_run gx q ;;; _run gx q) w
    = rounds b q pids first ++ rounds b q pids second ∧
    searches (effects_of (_run gx q ;;; _run gx q) w)
    = replicate (length pids + length pids) (b, q, 10, 2).
Proof.
  intros Hready Hst Hsearch Hall. apply Forall_forall in Hall.
  destruct (run_all_complete gx q w pids b st Hready Hst Hsearch Hall)
    as (first & Hlen1 & Hrun1).
  destruct (run_all_complete gx q (with_trace w (rounds b q pids first)) pids b st)
    as (second & Hlen2 & Hrun2);
    [by apply ready_with_trace|by apply reports_app|by apply search_answers_app|done|].
  exists first, second. split; [done|]. split; [done|].
  assert (effects_of (_run gx q ;;; _run gx q) w
          = rounds b q pids first ++ rounds b q pids second) as ->.
  { apply effects_of_trace. rewrite (bind_Return _ _ _ _ _ Hrun1), Hrun2.
    cbn [snd trace with_trace]. by rewrite app_assoc. }
  split; [done|]. unfold searches. rewrite omap_app.
  fold (searches (rounds b q pids first)) (searches (rounds b q pids second)).
  rewrite !searches_rounds by done. by rewrite replicate_add.
Qed.

Lemma run_twice_asks_twice_witness :
  searches (effects_of (_run (demo_service all_complete ["A"; "B"]) "wing load" ;;;
                        _run (demo_service all_complete ["A"; "B"]) "wing load")
                       (demo_tool ["a.pdf"; "b.pdf"] ["job-a"; "job-b"]))
  = replicate 4 (7, "wing load", 10, 2).
Proof.
  destruct (run_twice_asks_twice (demo_service all_complete ["A"; "B"]) "wing load"
              (demo_tool ["a.pdf"; "b.pdf"] ["job-a"; "job-b"]) ["job-a"; "job-b"] 7
              all_complete)
    as (first & second & _ & _ & _ & Hsearches).
  - split; [by eexists|]. split; reflexivity.
  - intros h pid. reflexivity.
  - intros h id q n v. eexists. reflexivity.
  - reflexivity.
  - exact Hsearches.
Defined.

Section same_answer.
Variable gx : GroundX.
Variable q : string.
Variable b : Z.
Variable st : string → string.
Variable hits : list string.

Lemma run_for_same_answer pids : ∀ results w,
  is_Some (client (self w)) → bucket_id (self w) = Some b →
  reports gx (trace w) st →
  (∀ h, search_content gx (trace w ++ h) b q 10 2 = Return hits) →
  Forall (λ pid, st pid = "complete") pids →
  fst (_run_for gx q pids results w)
  = Return (inr (results ++ concat (replicate (length pids) hits))).
Proof.
  induction pids as [|pid rest IH]; intros results w [c Hc] Hb Hst Hsearch Hall.
  - simpl. by rewrite app_nil_r.
  - apply Forall_cons in Hall as [Hpid Hall]. cbn [_run_for].
    erewrite bind_Return by (by apply getattr_run).
    erewrite bind_Return; cycle 1.
    { rewrite perform_run. pose proof (Hst [] pid) as Hs.
      rewrite app_nil_r in Hs. by rewrite Hs, Hpid. }
    rewrite bool_decide_eq_false_2 by (by intros ?).
    erewrite bind_Return by (by apply getattr_run).
    erewrite bind_Return by (by apply getattr_run).
    erewrite bind_Return by (by rewrite perform_run; cbn [trace with_trace]; rewrite Hsearch).
    rewrite fold_append, IH; [|by exists c|done|..|done].
    + cbn [length replicate concat]. by rewrite <- app_assoc.
    + cbn [trace with_trace]. by apply reports_app, reports_app.
    + intros h. cbn [trace with_trace]. rewrite <- !app_assoc. apply Hsearch.
Qed.

End same_answer.

(** X9.  Results are not deduplicated: when all N jobs are complete and the
    service gives the same answer to the query each time, [_run] returns
    that answer's fragments N times over, joined by the delimiter. *)
Theorem run_repeats_shared_answer gx q w pids b st hits :
  ready w pids b → reports gx (trace w) st →
  (∀ h, search_content gx (trace w ++ h) b q 10 2 = Return hits) →
  (∀ pid, pid ∈ pids → st pid = "complete") →
  fst (_run gx q w)
  = Return match concat (replicate (length pids) hits) with
           | [] => "No relevant information found."
           | fragments => join delimiter fragments
           end.
Proof.
  intros (Hc & Hb & Hp) Hst Hsearch Hall. apply Forall_forall in Hall.
  pose proof (run_for_same_answer gx q b st hits pids [] w Hc Hb Hst Hsearch Hall)
    as Hrun.
  rewrite (run_unfold gx q w pids Hp).
  destruct (_run_for gx q pids [] w) as [out w']. simpl in Hrun. subst out.
  cbn [fst app]. by destruct (concat (replicate (length pids) hits)).
Qed.

Lemma run_repeats_shared_answer_witness :
  fst (_run (demo_service all_complete ["A"]) "wing load"
            (demo_tool ["a.pdf"; "b.pdf"] ["job-a"; "job-b"]))
  = Return (join delimiter ["A"; "A"]).
Proof.
  apply (run_repeats_shared_answer (demo_service all_complete ["A"]) "wing load"
           (demo_tool ["a.pdf"; "b.pdf"] ["job-a"; "job-b"]) ["job-a"; "job-b"] 7
           all_complete ["A"]).
  - split; [by eexists|]. split; reflexivity.
  - intros h pid. reflexivity.
  - intros h. reflexivity.
  - reflexivity.
Defined.

(** ** How [__init__] ends *)

Section upload_cases.
Variable gx : GroundX.
Variable b : Z.

Lemma upload_loop_cases parts : ∀ acc w,
  is_Some (client (self w)) → bucket_id (self w) = Some b →
  (∃ new,
     length new = length parts ∧
     for_each (upload_body gx) parts acc w
     = (Return (acc ++ new), with_trace w (uploads b parts new))) ∨
  (∃ done part rest new e,
     parts = done ++ part :: rest ∧ length new = length done ∧
     for_each (upload_body gx) parts acc w
     = (Raise e,
        with_trace w (uploads b done new ++ [EvIngest (document b part) (Raise e)]))).
Proof.
  induction parts as [|part parts IH]; intros acc w Hc Hb.
  - left. exists []. rewrite app_nil_r. split; [done|]. simpl.
    unfold ret, uploads. simpl. by rewrite with_trace_nil.
  - destruct (ingest gx (trace w) (document b part) (fs w !! part)) as [pid|e] eqn:Hingest.
    + assert (for_each (upload_body gx) (part :: parts) acc w
              = for_each (upload_body gx) parts (acc ++ [pid])
                         (with_trace w [EvIngest (document b part) (Return pid)]))
        as Hstep.
      { cbn [for_each]. unfold upload_body at 1.
        erewrite bind_Return; [reflexivity|].
        erewrite bind_Return; [reflexivity|].
        rewrite (upload_document_run gx b) by done. by rewrite Hingest. }
      destruct (IH (acc ++ [pid])
                   (with_trace w [EvIngest (document b part) (Return pid)]) Hc Hb)
        as [(new & Hlen & Hrun)|(done & part' & rest & new & e & -> & Hlen & Hrun)].
      * left. exists (pid :: new). split; [simpl; lia|].
        rewrite Hstep, Hrun, with_trace_app. by rewrite <- app_assoc.
      * right. exists (part :: done), part', rest, (pid :: new), e.
        split; [done|]. split; [simpl; lia|].
        by rewrite Hstep, Hrun, with_trace_app.
    + right. exists [], part, parts, [], e. split; [done|]. split; [done|].
      cbn [for_each]. unfold upload_body at 1.
      erewrite bind_Raise; [reflexivity|].
      erewrite bind_Raise; [reflexivity|].
      rewrite (upload_document_run gx b) by done. by rewrite Hingest.
Qed.

Lemma upload_parts_cases parts w :
  is_Some (client (self w)) → bucket_id (self w) = Some b →
  pdf_parts (self w) = Some parts →
  (∃ pids,
     length pids = length parts ∧
     upload_parts gx w
     = (Return tt,
        with_self (with_trace w (uploads b parts pids)) (set_process_ids pids (self w)))) ∨
  (∃ done part rest pids e,
     parts = done ++ part :: rest ∧ length pids = length done ∧
     upload_parts gx w
     = (Raise e,
        with_trace w (uploads b done pids ++ [EvIngest (document b part) (Raise e)]))).
Proof.
  intros Hc Hb Hparts. unfold upload_parts.
  erewrite bind_Return by (by apply getattr_run).
  destruct (upload_loop_cases parts [] w Hc Hb)
    as [(pids & Hlen & Hrun)|(done & part & rest & pids & e & Hsplit & Hlen & Hrun)].
  - left. exists pids. split; [done|]. by erewrite bind_Return by exact Hrun.
  - right. exists done, part, rest, pids, e. split; [done|]. split; [done|].
    by erewrite bind_Raise by exact Hrun.
Qed.

End upload_cases.

Section init_endings.
Variable gx : GroundX.
Variable pdf_size : list Page → Z.

Lemma init_ends path w :
  ∃ delta out o files,
    __init__ gx pdf_size path w
    = (out, mkWorld o (environ w) files (trace w ++ delta)) ∧
    init_ending gx pdf_size path w delta out o files.
Proof.
  destruct (buckets_create gx (trace w) "agentic_rag") as [b|e] eqn:Hr; cycle 1.
  { eexists _, _, _, _. split; [by apply init_bucket_raises|by constructor]. }
  rewrite (init_bucket_created gx pdf_size path w b Hr).
  destruct (fs w !! path) as [f|] eqn:Hf; cycle 1.
  { eexists _, _, _, _. split; [|by apply init_file_missing].
    rewrite (bind_Raise _ _ _ _ _ (check_missing pdf_size path (created path b w) Hf)).
    unfold with_trace, created. cbn. by rewrite <- app_assoc. }
  assert (∀ parts prep files w2,
            prepared pdf_size path f (fs w) parts prep files →
            check_file_size pdf_size path (created path b w) = (Return tt, w2) →
            w2 = mkWorld (mkSelf (Some path)
                                 (Some (mkClient (environ w !! "GROUNDX_API_KEY")))
                                 (Some b) (Some parts) None)
                         (environ w) files
                         (trace w ++ [EvBucketsCreate "agentic_rag" (Return b);
                                      EvGetSize path (Return (file_size f))] ++ prep) →
            ∃ delta out o files',
              (check_file_size pdf_size path ;;; upload_parts gx) (created path b w)
              = (out, mkWorld o (environ w) files' (trace w ++ delta)) ∧
              init_ending gx pdf_size path w delta out o files') as Htail.
  { intros parts prep files w2 Hprep Hcheck Hw2.
    rewrite (bind_Return _ _ _ _ _ Hcheck).
    destruct (upload_parts_cases gx b parts w2)
      as [(pids & Hlen & ->)|(done & part & rest & pids & e & Hsplit & Hlen & ->)];
      [subst w2; by eexists|by subst w2|by subst w2|..]; subst w2.
    - eexists _, _, _, _.
      split; [|by apply (init_constructed gx pdf_size path w b f parts prep files pids)].
      unfold with_self, with_trace, set_process_ids. cbn. by rewrite <- !app_assoc.
    - eexists _, _, _, _.
      split; [|by apply (init_upload_failed gx pdf_size path w b f parts prep files
                           done part rest pids e)].
      unfold with_trace. cbn. by rewrite <- !app_assoc. }
  destruct (Z.le_gt_cases (file_size f) size_limit) as [Hsmall|Hlarge].
  - eapply Htail; [by apply prepared_whole|by apply (check_small _ _ f)|].
    unfold with_self, with_trace, created, set_pdf_parts. cbn.
    by rewrite <- !app_assoc.
  - destruct (file_content f) as [doc|page more|] eqn:Hcontent.
    + assert (file_pages f = Some doc) as Hdoc
        by (by unfold file_pages; rewrite Hcontent).
      eapply Htail; [by apply (prepared_split _ _ _ _ doc)
                    |by apply (check_large _ _ f doc)|].
      unfold created, set_pdf_parts, split_effects. cbn. by rewrite <- !app_assoc.
    + eexists _, _, _, _.
      split; [|by apply (init_file_not_pdf gx pdf_size path w b f page more)].
      rewrite (bind_Raise _ _ _ _ _
                 (check_large_not_pdf pdf_size path f page more (created path b w)
                    Hf Hlarge Hcontent)).
      unfold with_trace, created. cbn. by rewrite <- !app_assoc.
    + eexists _, _, _, _. split; [|by apply (init_file_unopenable gx pdf_size path w b f)].
      rewrite (bind_Raise _ _ _ _ _
                 (check_large_unopenable pdf_size path f (created path b w)
                    Hf Hlarge Hcontent)).
      unfold with_trace, created. cbn. by rewrite <- !app_assoc.
Qed.

End init_endings.

(** X10.  For any service and any file system the constructor ends in one
    of six ways: the bucket request fails; the input file is missing; the
    file is over the size limit and PyMuPDF cannot open it; the file is
    over the size limit and opens as a document that is no PDF, so that
    copying its first page raises RuntimeError; an upload fails after the
    parts were prepared; or every part was uploaded.  In each case the
    effects, the raised error, the attributes set on the instance and the
    files left on disk are those listed by [init_ending]; the process
    environment is never changed. *)
Theorem init_ends_in_one_of_six_ways gx pdf_size path w :
  init_ending gx pdf_size path w
    (effects_of (__init__ gx pdf_size path) w)
    (fst (__init__ gx pdf_size path w))
    (self (snd (__init__ gx pdf_size path w)))
    (fs (snd (__init__ gx pdf_size path w))) ∧
  environ (snd (__init__ gx pdf_size path w)) = environ w.
Proof.
  destruct (init_ends gx pdf_size path w) as (delta & out & o & files & Hrun & Hend).
  unfold effects_of. rewrite Hrun. cbn [fst snd self fs trace environ].
  by rewrite drop_app_length.
Qed.

Lemma ingested_prepared pdf_size path f files parts prep files' :
  prepared pdf_size path f files parts prep files' → ingested prep = [].
Proof.
  intros [Hsmall|doc Hlarge Hdoc]; [done|].
  unfold ingested. cbn. apply ingested_saves.
Qed.

Lemma ingested_app l k : ingested (l ++ k) = ingested l ++ ingested k.
Proof. apply omap_app. Qed.

(** X11.  The list of job identifiers is all or nothing: [process_ids] is
    set on the instance exactly when the constructor returns normally. *)
Theorem init_records_jobs_iff_it_returns gx pdf_size path w :
  is_Some (process_ids (self (snd (__init__ gx pdf_size path w))))
  ↔ fst (__init__ gx pdf_size path w) = Return tt.
Proof.
  destruct (init_ends gx pdf_size path w) as (delta & out & o & files & -> & Hend).
  cbn [fst snd self].
  destruct Hend; cbn [process_ids]; (split; [intros [? ?]|intros ?]); done.
Qed.

(** X12.  When the constructor fails after the list of parts was set, an
    upload failed: the parts before the failing one were uploaded, in
    order, and stay uploaded; the failing part is the last upload attempted,
    its error is the one raised, and no job identifier is recorded. *)
Theorem init_uploads_stop_at_first_failure gx pdf_size path w parts e :
  pdf_parts (self (snd (__init__ gx pdf_size path w))) = Some parts →
  fst (__init__ gx pdf_size path w) = Raise e →
  ∃ b done part rest pids,
    parts = done ++ part :: rest ∧ length pids = length done ∧
    bucket_id (self (snd (__init__ gx pdf_size path w))) = Some b ∧
    process_ids (self (snd (__init__ gx pdf_size path w))) = None ∧
    ingested (effects_of (__init__ gx pdf_size path) w)
    = zip_with (λ part pid, (document b part, Return pid)) done pids
      ++ [(document b part, Raise e)].
Proof.
  unfold effects_of.
  destruct (init_ends gx pdf_size path w) as (delta & out & o & files & -> & Hend).
  cbn [fst snd self trace]. rewrite drop_app_length. intros Hparts Hout.
  destruct Hend as [e'|b|b f|b f page more
                   |b f parts' prep files done part rest pids e' Hr Hf Hprep Hsplit Hlen
                   |b f parts' prep files pids];
    cbn [pdf_parts] in Hparts; try discriminate Hparts; try discriminate Hout.
  assert (parts' = parts) as -> by congruence.
  assert (e' = e) as -> by congruence.
  exists b, done, part, rest, pids. repeat (split; [done|]).
  rewrite !ingested_app, (ingested_prepared _ _ _ _ _ _ _ Hprep), ingested_uploads.
  done.
Qed.

Lemma init_uploads_stop_at_first_failure_witness :
  ingested (effects_of (__init__ (failing_after 1) demo_size "big.pdf")
                       (demo_world "big.pdf" (mkFile 10485761 (Some (demo_pages 25)))))
  = [(document 7 "split_0.pdf", Return "job-split_0.pdf");
     (document 7 "split_10.pdf", Raise (ApiError 429))].
Proof.
  destruct (init_uploads_stop_at_first_failure (failing_after 1) demo_size "big.pdf"
              (demo_world "big.pdf" (mkFile 10485761 (Some (demo_pages 25))))
              ["split_0.pdf"; "split_10.pdf"; "split_20.pdf"] (ApiError 429))
    as (b & done & part & rest & pids & _ & _ & _ & _ & Hing).
  - vm_compute. reflexivity.
  - vm_compute. reflexivity.
  - vm_compute. reflexivity.
Defined.

(** X13.  When the bucket cannot be created the constructor raises that
    error at once: the bucket request is its only effect, no file is looked
    at or written, and neither bucket id, parts nor jobs are set. *)
Theorem init_bucket_failure gx pdf_size path w e :
  buckets_create gx (trace w) "agentic_rag" = Raise e →
  fst (__init__ gx pdf_size path w) = Raise e ∧
  effects_of (__init__ gx pdf_size path) w = [EvBucketsCreate "agentic_rag" (Raise e)] ∧
  fs (snd (__init__ gx pdf_size path w)) = fs w ∧
  bucket_id (self (snd (__init__ gx pdf_size path w))) = None ∧
  pdf_parts (self (snd (__init__ gx pdf_size path w))) = None ∧
  process_ids (self (snd (__init__ gx pdf_size path w))) = None.
Proof.
  intros Hr. unfold effects_of.
  rewrite (init_bucket_raises gx pdf_size path w e Hr).
  cbn [fst snd self fs trace bucket_id pdf_parts process_ids].
  by rewrite drop_app_length.
Qed.

Lemma init_bucket_failure_witness :
  effects_of (__init__ no_bucket demo_size "doc.pdf")
             (demo_world "doc.pdf" (mkFile 10485761 (Some (demo_pages 12))))
  = [EvBucketsCreate "agentic_rag" (Raise (ApiError 401))].
Proof.
  apply (init_bucket_failure no_bucket demo_size "doc.pdf"
           (demo_world "doc.pdf" (mkFile 10485761 (Some (demo_pages 12)))) (ApiError 401)).
  reflexivity.
Defined.

(** ** Uploads *)

Lemma basename_no_slash p : has_slash (basename p) = false.
Proof.
  induction p as [|c r IH]; [done|]. cbn [basename].
  destruct (has_slash r) eqn:Hr; [done|].
  destruct (Ascii.eqb c "/") eqn:Hc; [done|]. cbn [has_slash]. by rewrite Hc.
Qed.

Lemma basename_suffix p :
  ∃ dir, p = dir +:+ basename p ∧ (dir = "" ∨ ∃ d, dir = d +:+ "/").
Proof.
  induction p as [|c r (dir & IH & Hdir)]; [exists ""; by split; [|left]|].
  cbn [basename]. destruct (has_slash r) eqn:Hr.
  - exists (String c dir). split.
    + change (String c r = String c (dir +:+ basename r)). by f_equal.
    + right. destruct Hdir as [->|[d ->]]; [|by exists (String c d)].
      change (r = basename r) in IH. rewrite IH, basename_no_slash in Hr.
      discriminate Hr.
  - destruct (Ascii.eqb_spec c "/") as [->|_].
    + exists "/". split; [done|]. right. by exists "".
    + exists "". by split; [|left].
Qed.

Lemma has_slash_app_slash dir name : has_slash (dir +:+ "/" +:+ name) = true.
Proof.
  induction dir as [|c r IH]; [done|].
  change (has_slash (String c (r +:+ "/" +:+ name)) = true). cbn [has_slash].
  by destruct (Ascii.eqb c "/").
Qed.

Lemma basename_after_slash dir name :
  has_slash name = false → basename (dir +:+ "/" +:+ name) = name.
Proof.
  intros Hname. induction dir as [|c r IH].
  - change (basename (String "/" name) = name). cbn [basename].
    by rewrite Hname.
  - change (basename (String c (r +:+ "/" +:+ name)) = name). cbn [basename].
    by rewrite has_slash_app_slash.
Qed.

Lemma basename_bare p : has_slash p = false → basename p = p.
Proof.
  destruct p as [|c r]; [done|]. cbn [has_slash basename].
  destruct (Ascii.eqb c "/"); [done|]. by intros ->.
Qed.

(** X14.  On a tool with a client and a bucket, [_upload_document] sends
    one ingest request and returns or raises its answer.  The document of
    the request carries the bucket id, the path as given, the type "pdf"
    and the metadata key/value.  Its file name is the part of the path after
    the last slash: for a path dir/name where name has no slash it is name;
    in general it has no slash and what precedes it in the path is empty or
    ends with a slash; it is the path itself for a bare name such as
    split_i.pdf. *)
Theorem upload_document_request gx part w b :
  is_Some (client (self w)) → bucket_id (self w) = Some b →
  ∃ d,
    _upload_document gx part w
    = (ingest gx (trace w) d (fs w !! part),
       mkWorld (self w) (environ w) (fs w)
               (trace w ++ [EvIngest d (ingest gx (trace w) d (fs w !! part))])) ∧
    doc_bucket_id d = b ∧ doc_file_path d = part ∧ doc_file_type d = "pdf" ∧
    doc_search_data d = [("key", "value")] ∧
    (∀ dir name,
       part = dir +:+ "/" +:+ name → has_slash name = false →
       doc_file_name d = name) ∧
    has_slash (doc_file_name d) = false ∧
    (∃ dir, part = dir +:+ doc_file_name d ∧ (dir = "" ∨ ∃ d', dir = d' +:+ "/")) ∧
    (has_slash part = false → doc_file_name d = part) ∧
    (∀ i : Z, part = "split_" +:+ pretty i +:+ ".pdf" → doc_file_name d = part).
Proof.
  intros Hc Hb. exists (document b part).
  split; [by apply upload_document_run|]. cbn.
  repeat (split; [done|]).
  split; [intros dir name -> Hname; by apply basename_after_slash|].
  split; [apply basename_no_slash|]. split; [apply basename_suffix|].
  split; [apply basename_bare|].
  intros i ->. apply basename_bare, part_name_no_slash.
Qed.

Lemma upload_document_request_witness :
  ∃ d,
    fst (_upload_document (demo_service all_complete []) "reports/2024/manual.pdf"
           (demo_tool ["reports/2024/manual.pdf"] [])) = Return ("job-" +:+ doc_file_name d) ∧
    doc_file_name d = "manual.pdf".
Proof.
  destruct (upload_document_request (demo_service all_complete [])
              "reports/2024/manual.pdf" (demo_tool ["reports/2024/manual.pdf"] []) 7)
    as (d & Hrun & _ & _ & _ & _ & Hname & _).
  - by eexists.
  - reflexivity.
  - exists d. split; [by rewrite Hrun|].
    apply (Hname "reports/2024" "manual.pdf"); reflexivity.
Defined.

(** ** Construction followed by a query *)

(** X15.  A construction that returned leaves a tool that can be queried:
    it has recorded the bucket it created and one job per part.  When the
    service then reports every job complete and the searches do not fail,
    [_run] performs one round of status and search request per recorded
    job, against that bucket, and returns the fragments of the answers to
    these searches, joined by the delimiter (or the no-results sentinel
    when they hold no fragment). *)
Theorem init_then_run gx pdf_size path w w' q st :
  __init__ gx pdf_size path w = (Return tt, w') →
  reports gx (trace w') st → search_answers gx (trace w') →
  (∀ pid, st pid = "complete") →
  ∃ b parts pids founds,
    bucket_id (self w') = Some b ∧ pdf_parts (self w') = Some parts ∧
    process_ids (self w') = Some pids ∧
    length pids = length parts ∧ length founds = length pids ∧
    effects_of (_run gx q) w' = rounds b q pids founds ∧
    fst (_run gx q w')
    = Return match concat founds with
             | [] => "No relevant information found."
             | fragments => join delimiter fragments
             end ∧
    searches (effects_of (_run gx q) w') = replicate (length parts) (b, q, 10, 2).
Proof.
  intros Hinit Hst Hsearch Hall.
  destruct (init_ends gx pdf_size path w) as (delta & out & o & files & Hrun & Hend).
  rewrite Hinit in Hrun.
  assert (out = Return tt) as Hout by congruence.
  assert (w' = mkWorld o (environ w) files (trace w ++ delta)) as -> by congruence.
  clear Hrun Hinit.
  destruct Hend as [e'|b|b f|b f page more
                   |b f parts prep files' done part rest pids e' Hr Hf Hprep Hsplit Hlen
                   |b f parts prep files' pids Hr Hf Hprep Hlen];
    try discriminate Hout.
  match goal with |- context [_run gx q ?w2] => set (w' := w2) in * end.
  destruct (run_all_complete gx q w' pids b st) as (founds & Hfounds & Hq);
    [by split; [eexists|]|done|done|by apply Forall_forall|].
  assert (effects_of (_run gx q) w' = rounds b q pids founds) as Heff
    by (apply effects_of_trace; by rewrite Hq).
  exists b, parts, pids, founds. do 5 (split; [done|]). split; [done|].
  rewrite Hq. cbn [fst]. split; [by destruct (concat founds)|].
  rewrite Heff, searches_rounds by done. by rewrite Hlen.
Qed.

Lemma init_then_run_witness :
  ∃ w',
    __init__ (demo_service all_complete ["A"]) demo_size "doc.pdf"
             (demo_world "doc.pdf" (mkFile 10485761 (Some (demo_pages 12))))
    = (Return tt, w') ∧
    fst (_run (demo_service all_complete ["A"]) "wing load" w')
    = Return (join delimiter ["A"; "A"]) ∧
    searches (effects_of (_run (demo_service all_complete ["A"]) "wing load") w')
    = replicate 2 (7, "wing load", 10, 2).
Proof.
  eexists. split; [vm_compute; reflexivity|].
  destruct (init_then_run (demo_service all_complete ["A"]) demo_size "doc.pdf"
              (demo_world "doc.pdf" (mkFile 10485761 (Some (demo_pages 12)))) _
              "wing load" all_complete ltac:(vm_compute; reflexivity))
    as (b & parts & pids & founds & Hb & Hparts & Hpids & _ & Hlen & Heff & Hret
        & Hsearches).
  - intros h pid. reflexivity.
  - intros h id q n v. eexists. reflexivity.
  - reflexivity.
  - injection Hb as <-. injection Hparts as <-. injection Hpids as <-.
    split; [|exact Hsearches].
    destruct founds as [|first [|second [|third founds]]]; try discriminate Hlen.
    vm_compute in Heff. injection Heff as <- <-. exact Hret.
Defined.

(** X16.  A readable PDF over the size limit that has no page is accepted:
    the constructor returns with no part and no job and uploads nothing,
    and every later query answers "No relevant information found." without
    a single request to the service. *)
Theorem init_empty_document_then_run gx pdf_size path f w b q :
  fs w !! path = Some f → 10485760 < file_size f → file_pages f = Some [] →
  buckets_create gx (trace w) "agentic_rag" = Return b →
  fst (__init__ gx pdf_size path w) = Return tt ∧
  pdf_parts (self (snd (__init__ gx pdf_size path w))) = Some [] ∧
  process_ids (self (snd (__init__ gx pdf_size path w))) = Some [] ∧
  ingested (effects_of (__init__ gx pdf_size path) w) = [] ∧
  fs (snd (__init__ gx pdf_size path w)) = fs w ∧
  _run gx q (snd (__init__ gx pdf_size path w))
  = (Return "No relevant information found.", snd (__init__ gx pdf_size path w)).
Proof.
  intros Hf Hsize Hdoc Hr. change 10485760 with size_limit in Hsize.
  unfold effects_of. rewrite (init_bucket_created gx pdf_size path w b Hr).
  rewrite (bind_Return _ _ _ _ _
             (check_large pdf_size path f [] (created path b w) Hf Hsize Hdoc)).
  unfold upload_parts. erewrite bind_Return by (by apply getattr_run).
  erewrite bind_Return by reflexivity.
  cbn [fst snd self fs trace set_self set_process_ids set_pdf_parts created
       pdf_parts process_ids].
  repeat (split; [done|]). split.
  { rewrite <- !app_assoc, drop_app_length. done. }
  split; [done|]. unfold _run. erewrite bind_Return by (by apply getattr_run).
  reflexivity.
Qed.

Lemma init_empty_document_then_run_witness :
  fst (__init__ (demo_service all_complete ["A"]) demo_size "blank.pdf"
         (demo_world "blank.pdf" (mkFile 10485761 (Some []))))
  = Return tt ∧
  fst (_run (demo_service all_complete ["A"]) "wing load"
         (snd (__init__ (demo_service all_complete ["A"]) demo_size "blank.pdf"
                 (demo_world "blank.pdf" (mkFile 10485761 (Some []))))))
  = Return "No relevant information found.".
Proof.
  destruct (init_empty_document_then_run (demo_service all_complete ["A"]) demo_size
              "blank.pdf" (mkFile 10485761 (Some []))
              (demo_world "blank.pdf" (mkFile 10485761 (Some []))) 7 "wing load")
    as (Hinit & _ & _ & _ & _ & Hrun).
  - vm_compute. reflexivity.
  - simpl. lia.
  - reflexivity.
  - reflexivity.
  - split; [exact Hinit|]. by rewrite Hrun.
Defined.
